(** * Verification of [pls_bonus_calculation.py]

    A shallow embedding of the Pailie-3 ("排列三") recommendation checker:
    the draw-history parser, the report locator, the ticket extractor, the
    prize engine, the report writer and the orchestrator, followed by the
    properties proved about them.

    Conventions of the embedding.
    - A Python [str] is the list of its Unicode code points ([pystr]).
      Literals of the source are written with [str "..."], which decodes the
      UTF-8 bytes of a Rocq string literal.
    - Python [int] is [Z]; a [list] is a [list]; a [dict] used as a map is a
      [gmap]; a [set] is a [gset].
    - Calls into the Python runtime whose behaviour is fixed outside this
      repository (the Unicode tables behind [\d] and [\s], [int()],
      [csv.reader], [datetime.strptime], [str(e)]) are the fields of the
      class [PyRuntime], together with the facts about them the model and
      the proofs rest on.  [RefRuntime] is an executable instance, used to
      run the program on concrete inputs.
    - The file system is a map from paths to the text [robust_file_read]
      returns for them, so the trial of encodings is not modelled; writing a
      file always succeeds, and the file then reads back as the text
      written.  [log_message] only prints to the console and is left out. *)

From Stdlib Require Import ZArith Ascii String Lia.
From stdpp Require Import gmap list strings sorting.

Local Open Scope Z_scope.

(** ** Python strings *)

Abbreviation pystr := (list Z).

(** Decoder for the UTF-8 bytes of a literal: [need] continuation bytes are
    still expected for the code point accumulated in [acc]. *)
Fixpoint utf8_decode (need : nat) (acc : Z) (bs : list Z) : pystr :=
  match bs with
  | [] => []
  | b :: rest =>
      match need with
      | O =>
          if b <? 128 then b :: utf8_decode O 0 rest
          else if b <? 224 then utf8_decode 1%nat (b - 192) rest
          else if b <? 240 then utf8_decode 2%nat (b - 224) rest
          else utf8_decode 3%nat (b - 240) rest
      | S O => (acc * 64 + (b - 128)) :: utf8_decode O 0 rest
      | S n => utf8_decode n (acc * 64 + (b - 128)) rest
      end
  end.

Definition str (s : string) : pystr :=
  utf8_decode O 0 (map (fun a => Z.of_N (N_of_ascii a)) (list_ascii_of_string s)).

(** [str(n)] for a Python int: its decimal digits, with a sign when negative. *)
Fixpoint pos_digits (fuel : nat) (n : Z) (acc : pystr) : pystr :=
  match fuel with
  | O => acc
  | S fuel' =>
      let acc' := (48 + n mod 10) :: acc in
      if n <? 10 then acc' else pos_digits fuel' (n / 10) acc'
  end.

Definition str_int (n : Z) : pystr :=
  if n <? 0 then 45 :: pos_digits (Z.to_nat (Z.log2 (- n)) + 1) (- n) []
  else pos_digits (Z.to_nat (Z.log2 n) + 1) n [].

(** [sep.join(lines)] *)
Fixpoint join (sep : pystr) (lines : list pystr) : pystr :=
  match lines with
  | [] => []
  | [l] => l
  | l :: rest => l ++ sep ++ join sep rest
  end.

(** [c * n] for a one-character string [c] *)
Definition repeat_char (c : Z) (n : nat) : pystr := replicate n c.

(** ** Configuration *)

Definition REPORT_PATTERN : pystr := Eval cbv in str "pls_analysis_output_*.txt".
Definition CSV_FILE : pystr := Eval cbv in str "pls.csv".
Definition MAIN_REPORT_FILE : pystr := Eval cbv in str "latest_pls_calculation.txt".

Definition MAX_NORMAL_RECORDS : nat := 10.
Definition MAX_ERROR_LOGS : nat := 20.

(** The keys of [PRIZE_TABLE]: "直选", "组选3", "组选6". *)
Inductive PrizeLevel := ZhiXuan | ZuXuan3 | ZuXuan6.

Definition PRIZE_TABLE (level : PrizeLevel) : Z :=
  match level with
  | ZhiXuan => 1000
  | ZuXuan3 => 333
  | ZuXuan6 => 167
  end.

Definition KEY_ZHIXUAN : pystr := Eval cbv in str "直选".
Definition KEY_ZUXUAN3 : pystr := Eval cbv in str "组选3".
Definition KEY_ZUXUAN6 : pystr := Eval cbv in str "组选6".

Definition prize_level_str (level : PrizeLevel) : pystr :=
  match level with
  | ZhiXuan => KEY_ZHIXUAN
  | ZuXuan3 => KEY_ZUXUAN3
  | ZuXuan6 => KEY_ZUXUAN6
  end.

#[global] Instance PrizeLevel_eq_dec : EqDecision PrizeLevel.
Proof. solve_decision. Defined.

#[global] Instance PrizeLevel_countable : Countable PrizeLevel.
Proof.
  refine (inj_countable'
            (fun l => match l with ZhiXuan => 0%nat | ZuXuan3 => 1%nat | ZuXuan6 => 2%nat end)
            (fun n => match n with O => ZhiXuan | S O => ZuXuan3 | _ => ZuXuan6 end) _).
  intros []; reflexivity.
Defined.

(** ** Prize engine: [calculate_prize] *)

(** One element of [winning_details]. *)
Record WinningDetail := {
  ticket_id : Z;
  numbers : list Z;
  prize_level : PrizeLevel;
  amount : Z
}.

(** The three accumulators of the loop. *)
Record PrizeState := {
  total_prize : Z;
  prize_counts : gmap PrizeLevel Z;
  winning_details : list WinningDetail
}.

(** The bookkeeping both winning branches of the loop perform. *)
Definition award (st : PrizeState) (i : Z) (rec_numbers : list Z)
    (level : PrizeLevel) : PrizeState :=
  let prize_amount := PRIZE_TABLE level in
  {| total_prize := total_prize st + prize_amount;
     prize_counts :=
       <[level := default 0 (prize_counts st !! level) + 1]> (prize_counts st);
     winning_details :=
       winning_details st ++
       [{| ticket_id := i + 1; numbers := rec_numbers;
           prize_level := level; amount := prize_amount |}] |}.

(** The loop body for ticket number [i] (0-based, as [enumerate] gives it). *)
Definition calculate_prize_step (prize_numbers : list Z) (st : PrizeState)
    (i : Z) (rec_numbers : list Z) : PrizeState :=
  if decide (rec_numbers = prize_numbers) then award st i rec_numbers ZhiXuan
  else
    let rec_set : gset Z := list_to_set rec_numbers in
    let prize_set : gset Z := list_to_set prize_numbers in
    if decide (rec_set = prize_set) then
      let level := if decide (size rec_set = 3%nat) then ZuXuan6 else ZuXuan3 in
      award st i rec_numbers level
    else st.

Fixpoint calculate_prize_loop (prize_numbers : list Z) (i : Z)
    (recommendations : list (list Z)) (st : PrizeState) : PrizeState :=
  match recommendations with
  | [] => st
  | rec_numbers :: rest =>
      calculate_prize_loop prize_numbers (i + 1) rest
        (calculate_prize_step prize_numbers st i rec_numbers)
  end.

Definition calculate_prize (recommendations : list (list Z))
    (prize_numbers : list Z) : PrizeState :=
  calculate_prize_loop prize_numbers 0 recommendations
    {| total_prize := 0; prize_counts := ∅; winning_details := [] |}.

(** ** The Python runtime *)

(** A naive [datetime]: compared field by field, in this order. *)
Record datetime := {
  year : Z; month : Z; day : Z; hour : Z; minute : Z; second : Z
}.

(** The exceptions the program can meet.  [Exception] is what the program
    raises itself; the others are raised by built-in operations. *)
Inductive Exn :=
  | Exception (msg : pystr)
  | ValueError (literal : pystr)
  | KeyError (key : pystr)
  | IndexError.

(** [s] without its longest prefix in the class [p]. *)
Fixpoint drop_while (p : Z -> bool) (s : pystr) : pystr :=
  match s with
  | c :: s' => if p c then drop_while p s' else s
  | [] => []
  end.

(** White space stripped from both ends, given the class of white space. *)
Definition strip_with (isspace : Z -> bool) (s : pystr) : pystr :=
  reverse (drop_while isspace (reverse (drop_while isspace s))).

(** Value of a sequence of decimal digits, most significant first. *)
Definition of_digits (ds : list Z) : Z := foldl (fun acc d => 10 * acc + d) 0 ds.

Class PyRuntime := {
  (** [c.isspace()], the class [\s] of [re] on [str] patterns *)
  py_isspace : Z -> bool;
  (** decimal value of a character of the class [\d] (Unicode category Nd) *)
  py_decimal : Z -> option Z;
  (** [int(s)]; [None] stands for [ValueError] *)
  py_int : pystr -> option Z;
  (** the rows [csv.reader(content.splitlines())] yields when it is read to
      its end; [None] stands for an exception raised on the way *)
  csv_rows : pystr -> option (list (list pystr));
  (** [datetime.strptime(s, "%Y%m%d_%H%M%S")]; [None] stands for [ValueError] *)
  strptime : pystr -> option datetime;
  (** [str(e)] *)
  exn_str : Exn -> pystr;

  py_decimal_range : forall c v, py_decimal c = Some v -> 0 <= v <= 9;
  py_decimal_ascii : forall c, 48 <= c <= 57 -> py_decimal c = Some (c - 48);
  py_isspace_newline : py_isspace 10 = true;
  py_space_not_decimal : forall c, py_isspace c = true -> py_decimal c = None;
  (** the characters [: [ ] 截 期], which follow the repetitions of the
      program's patterns, are neither white space nor digits *)
  py_literal_chars : forall c, c ∈ [58; 91; 93; 25130; 26399] ->
    py_isspace c = false /\ py_decimal c = None;
  (** [int] reads a run of at most 640 decimal digits (the lowest limit
      [sys.set_int_max_str_digits] can be given; the default is 4300) in base
      ten ... *)
  py_int_digits : forall s ds,
    s <> [] -> (length s <= 640)%nat -> mapM py_decimal s = Some ds ->
    py_int s = Some (of_digits ds);
  (** ... and ignores a trailing newline. *)
  py_int_trailing_newline : forall s, py_int (s ++ [10]) = py_int s;
  exn_str_Exception : forall msg, exn_str (Exception msg) = msg
}.

(** ** Regular expressions of the program

    Each pattern of the source is a sequence of literals and of greedy
    repetitions of a character class, and every repetition is followed by a
    literal (or a class) that shares no character with it
    ([py_space_not_decimal], [py_literal_chars]); backtracking can therefore
    never succeed where the greedy run fails, and the matchers below take
    the greedy run directly. *)

(** A literal at the head of [s]: the rest of [s] after it. *)
Fixpoint expect (lit s : pystr) : option pystr :=
  match lit with
  | [] => Some s
  | c :: lit' =>
      match s with
      | c' :: s' => if decide (c = c') then expect lit' s' else None
      | [] => None
      end
  end.

(** The longest prefix of [s] in the class [p], and what follows it. *)
Fixpoint span (p : Z -> bool) (s : pystr) : pystr * pystr :=
  match s with
  | c :: s' => if p c then let '(run, rest) := span p s' in (c :: run, rest)
               else ([], s)
  | [] => ([], [])
  end.

(** Exactly [n] characters of the class [p]. *)
Fixpoint exactly (n : nat) (p : Z -> bool) (s : pystr) : option (pystr * pystr) :=
  match n with
  | O => Some ([], s)
  | S n' =>
      match s with
      | c :: s' =>
          if p c then '(run, rest) ← exactly n' p s'; Some (c :: run, rest)
          else None
      | [] => None
      end
  end.

(** The anchor [$]: the end of the string, or just before a final newline. *)
Definition at_end (s : pystr) : bool :=
  bool_decide (s = []) || bool_decide (s = [10]).

(** [re.search]: the first position, from the left, where [m] matches. *)
Fixpoint search {A} (m : pystr -> option A) (s : pystr) : option A :=
  match m s with
  | Some x => Some x
  | None => match s with
            | [] => None
            | _ :: s' => search m s'
            end
  end.

(** [finditer]: the matches from left to right, none overlapping another.
    [m] gives the captured group and the text after the match; [skip] counts
    the characters of the last match still to pass over. *)
Fixpoint finditer_from {A} (m : pystr -> option (A * pystr)) (skip : nat)
    (s : pystr) : list A :=
  match s with
  | [] => []
  | _ :: s' =>
      match skip with
      | S k => finditer_from m k s'
      | O =>
          match m s with
          | Some (g, rest) =>
              g :: finditer_from m (length s - length rest - 1)%nat s'
          | None => finditer_from m O s'
          end
      end
  end.

Definition finditer {A} (m : pystr -> option (A * pystr)) (s : pystr) : list A :=
  finditer_from m O s.

Definition MARKER_HEAD : pystr := Eval cbv in str "分析基于数据:".
Definition MARKER_UPTO : pystr := Eval cbv in str "截至".
Definition MARKER_PERIOD : pystr := Eval cbv in str "期".
Definition TICKET_HEAD : pystr := Eval cbv in str "注".
Definition TXT_SUFFIX : pystr := Eval cbv in str ".txt".

Section Patterns.
Context `{PyRuntime}.

Definition is_digit (c : Z) : bool :=
  match py_decimal c with Some _ => true | None => false end.

(** [x.strip()] *)
Definition strip (s : pystr) : pystr := strip_with py_isspace s.

(** [re.match(r'^\d{4,7}$', s)] *)
Definition match_period_code (s : pystr) : bool :=
  let '(run, rest) := span is_digit s in
  bool_decide (4 <= length run <= 7)%nat && at_end rest.

(** [r'分析基于数据:\s*截至\s*(\d+)\s*期'] at the head of [s]: group 1. *)
Definition cutoff_at (s : pystr) : option pystr :=
  r0 ← expect MARKER_HEAD s;
  r1 ← expect MARKER_UPTO (span py_isspace r0).2;
  let '(digits, r2) := span is_digit (span py_isspace r1).2 in
  if decide (digits = []) then None
  else _ ← expect MARKER_PERIOD (span py_isspace r2).2; Some digits.

(** [r'_(\d{8}_\d{6})\.txt$'] at the head of [s]: group 1. *)
Definition timestamp_at (s : pystr) : option pystr :=
  r0 ← expect [95] s;
  '(date, r1) ← exactly 8 is_digit r0;
  r2 ← expect [95] r1;
  '(time, r3) ← exactly 6 is_digit r2;
  r4 ← expect TXT_SUFFIX r3;
  if at_end r4 then Some (date ++ [95] ++ time) else None.

(** The class [[0-9\s,]]. *)
Definition in_bracket_class (c : Z) : bool :=
  bool_decide (48 <= c <= 57) || py_isspace c || bool_decide (c = 44).

(** [r'注\s*\d+:\s*\[([0-9\s,]+)\]'] at the head of [s]: group 1 and the
    text after the match. *)
Definition ticket_at (s : pystr) : option (pystr * pystr) :=
  r0 ← expect TICKET_HEAD s;
  let '(index, r1) := span is_digit (span py_isspace r0).2 in
  if decide (index = []) then None
  else
    r2 ← expect [58] r1;
    r3 ← expect [91] (span py_isspace r2).2;
    let '(group, r4) := span in_bracket_class r3 in
    if decide (group = []) then None
    else r5 ← expect [93] r4; Some (group, r5).

End Patterns.

(** ** Sorting, as [sorted] and [list.sort] do it *)

(** [x] put into the ascending list [l], after the elements not above it:
    only [lt] is consulted, as Python's sort consults only [<]. *)
Fixpoint insert_sorted {A} (lt : A -> A -> bool) (x : A) (l : list A) : list A :=
  match l with
  | [] => [x]
  | y :: l' => if lt x y then x :: y :: l' else y :: insert_sorted lt x l'
  end.

(** A stable ascending sort: elements are inserted in input order, each
    after its equals. *)
Definition stable_sort {A} (lt : A -> A -> bool) (l : list A) : list A :=
  foldl (fun sorted x => insert_sorted lt x sorted) [] l.

(** [l.sort(reverse=True)]: the list is reversed, sorted, and reversed again. *)
Definition sort_reverse {A} (lt : A -> A -> bool) (l : list A) : list A :=
  reverse (stable_sort lt (reverse l)).

(** [<] on sequences of integers: on [str] (code points) and, through
    [datetime_key], on [datetime]. *)
Fixpoint list_lt (a b : list Z) : bool :=
  match a, b with
  | [], [] => false
  | [], _ :: _ => true
  | _ :: _, [] => false
  | x :: a', y :: b' =>
      if x <? y then true else if y <? x then false else list_lt a' b'
  end.

Definition datetime_key (d : datetime) : list Z :=
  [year d; month d; day d; hour d; minute d; second d].

#[global] Instance datetime_eq_dec : EqDecision datetime.
Proof. solve_decision. Defined.

(** [<] on the tuples [(timestamp, file_path)]. *)
Definition candidate_lt (a b : datetime * pystr) : bool :=
  if decide (a.1 = b.1) then list_lt a.2 b.2
  else list_lt (datetime_key a.1) (datetime_key b.1).

(** ** The world the program runs in *)

Record World := {
  (** [os.path.dirname(os.path.abspath(__file__))] *)
  script_dir : pystr;
  (** [glob.glob(os.path.join(script_dir, REPORT_PATTERN))], in the order
      the operating system lists the files *)
  glob_reports : list pystr;
  (** the text of every file that exists and can be decoded *)
  files : gmap pystr pystr;
  (** [datetime.now().strftime('%Y-%m-%d %H:%M:%S')] *)
  now : pystr
}.

(** [os.path.join(dir, name)] for a relative [name] (POSIX). *)
Definition path_join (dir name : pystr) : pystr :=
  match last dir with
  | None => name
  | Some c => if decide (c = 47) then dir ++ name else dir ++ [47] ++ name
  end.

Definition robust_file_read (w : World) (file_path : pystr) : option pystr :=
  files w !! file_path.

(** [open(path, 'w').write(content)] *)
Definition write_file (w : World) (file_path content : pystr) : World :=
  {| script_dir := script_dir w; glob_reports := glob_reports w;
     files := <[file_path := content]> (files w); now := now w |}.

(** ** Exceptions as results *)

#[global] Instance exn_ret : MRet (sum Exn) := fun _ x => inr x.
#[global] Instance exn_bind : MBind (sum Exn) :=
  fun _ _ f m => match m with inl e => inl e | inr x => f x end.

Definition raise {A} (msg : pystr) : Exn + A := inl (Exception msg).

(** [l[i]] *)
Definition index {A} (l : list A) (i : nat) : Exn + A :=
  match l !! i with
  | Some x => inr x
  | None => inl IndexError
  end.

(** ** Text of the messages and of the report blocks *)

Definition MSG_READ_CSV : pystr := Eval cbv in str "无法读取数据文件: ".
Definition MSG_NO_DATA : pystr := Eval cbv in str "未能解析到有效的开奖数据".
Definition MSG_TOO_FEW : pystr := Eval cbv in str "数据不足，至少需要2期数据".
Definition MSG_NO_REPORT_HEAD : pystr := Eval cbv in str "未找到数据截止期为 ".
Definition MSG_NO_REPORT_TAIL : pystr := Eval cbv in str " 的分析报告".
Definition MSG_READ_REPORT : pystr := Eval cbv in str "无法读取报告文件: ".
Definition MSG_NO_TICKETS : pystr := Eval cbv in str "报告中未找到有效的推荐号码".
Definition MSG_ERROR_HEAD : pystr := Eval cbv in str "验证过程发生错误: ".

Definition TXT_NO_WIN : pystr := Eval cbv in str "本期推荐号码未中奖。".
Definition TXT_DRAW : pystr := Eval cbv in str "开奖号码: ".
Definition TXT_ORDINAL : pystr := Eval cbv in str "第".
Definition TXT_TICKET : pystr := Eval cbv in str "注: ".
Definition TXT_DASH : pystr := Eval cbv in str " - ".
Definition TXT_YUAN : pystr := Eval cbv in str "元".
Definition TXT_EVAL_TIME : pystr := Eval cbv in str "评估时间: ".
Definition TXT_EVAL_PERIOD : pystr := Eval cbv in str "评估期号: ".
Definition TXT_TICKET_COUNT : pystr := Eval cbv in str "推荐数量: ".
Definition TXT_WIN_COUNT : pystr := Eval cbv in str "中奖注数: ".
Definition TXT_TOTAL : pystr := Eval cbv in str "总奖金: ".
Definition TXT_ERROR_TIME : pystr := Eval cbv in str "错误时间: ".
Definition TXT_ERROR_INFO : pystr := Eval cbv in str "错误信息: ".

(** ["=" * 60] *)
Definition SEPARATOR : pystr := repeat_char 61 60.

(** [f"{l[0]}{l[1]}{l[2]}"] *)
Definition three_digits (l : list Z) : Exn + pystr :=
  a ← index l 0; b ← index l 1; c ← index l 2;
  mret (str_int a ++ str_int b ++ str_int c).

Definition format_detail (detail : WinningDetail) : Exn + pystr :=
  numbers_str ← three_digits (numbers detail);
  mret (TXT_ORDINAL ++ str_int (ticket_id detail) ++ TXT_TICKET ++ numbers_str ++
        TXT_DASH ++ prize_level_str (prize_level detail) ++ TXT_DASH ++
        str_int (amount detail) ++ TXT_YUAN).

Definition format_winning_details (details : list WinningDetail)
    (prize_numbers : list Z) : Exn + list pystr :=
  match details with
  | [] => mret [TXT_NO_WIN]
  | _ =>
      draw ← three_digits prize_numbers;
      lines ← mapM format_detail details;
      mret ([TXT_DRAW ++ draw; []] ++ lines)
  end.

(** ** Report writer: [manage_report] *)

(** The dictionary [new_entry] with the keys [manage_report] reads. *)
Record ReportEntry := {
  entry_timestamp : pystr;
  entry_period : pystr;
  entry_prize_numbers : pystr;
  entry_total_recommendations : Z;
  entry_winning_count : Z;
  entry_total_prize : Z;
  entry_winning_details : list pystr
}.

Definition entry_lines (e : ReportEntry) : list pystr :=
  [TXT_EVAL_TIME ++ entry_timestamp e;
   TXT_EVAL_PERIOD ++ entry_period e;
   TXT_DRAW ++ entry_prize_numbers e;
   TXT_TICKET_COUNT ++ str_int (entry_total_recommendations e);
   TXT_WIN_COUNT ++ str_int (entry_winning_count e);
   TXT_TOTAL ++ str_int (entry_total_prize e) ++ TXT_YUAN;
   []]
  ++ entry_winning_details e
  ++ [[]; SEPARATOR; []].

Definition error_lines (time new_error : pystr) : list pystr :=
  [TXT_ERROR_TIME ++ time; TXT_ERROR_INFO ++ new_error; []; SEPARATOR; []].

(** The lines gathered in [new_content_lines]; an empty [new_error] counts as
    none ([if new_error:]). *)
Definition new_content_lines (time : pystr) (new_entry : option ReportEntry)
    (new_error : option pystr) : list pystr :=
  match new_entry with Some e => entry_lines e | None => [] end ++
  match new_error with
  | Some (c :: msg) => error_lines time (c :: msg)
  | _ => []
  end.

Definition report_path (w : World) : pystr := path_join (script_dir w) MAIN_REPORT_FILE.

Definition manage_report (new_entry : option ReportEntry)
    (new_error : option pystr) (w : World) : World :=
  let existing_content := default [] (robust_file_read w (report_path w)) in
  let lines := new_content_lines (now w) new_entry new_error in
  let final_content :=
    match lines with
    | [] => existing_content
    | _ => join [10] lines ++ [10] ++ existing_content
    end in
  write_file w (report_path w) final_content.

Section Program.
Context `{PyRuntime}.

(** ** Draw history store: [get_period_data_from_csv] *)

(** [all(0 <= num <= 9 for num in numbers)] *)
Definition all_digits (numbers : list Z) : bool :=
  forallb (fun num => (0 <=? num) && (num <=? 9)) numbers.

(** The body of the loop over the rows: [period_map] and [periods_list]
    after one more row.  The value stored for a period, the dictionary
    [{'numbers': [red_1, red_2, red_3]}], is kept as its list. *)
Definition process_row (acc : gmap pystr (list Z) * list pystr)
    (row : list pystr) : gmap pystr (list Z) * list pystr :=
  match row with
  | period :: f1 :: f2 :: f3 :: _ =>
      if match_period_code period then
        match py_int f1, py_int f2, py_int f3 with
        | Some red_1, Some red_2, Some red_3 =>
            if all_digits [red_1; red_2; red_3] then
              (<[period := [red_1; red_2; red_3]]> acc.1, acc.2 ++ [period])
            else acc
        | _, _, _ => acc
        end
      else acc
  | _ => acc
  end.

(** [sorted(periods_list, key=int)]: the keys are computed first. *)
Definition int_key (p : pystr) : Exn + Z * pystr :=
  match py_int p with
  | Some k => inr (k, p)
  | None => inl (ValueError p)
  end.

Definition sorted_by_int (periods_list : list pystr) : Exn + list pystr :=
  keyed ← mapM int_key periods_list;
  mret ((stable_sort (fun a b => a.1 <? b.1) keyed).*2).

(** The result is [None] for the pair [(None, None)]. *)
Definition get_period_data_from_csv (csv_content : pystr)
    : Exn + option (gmap pystr (list Z) * list pystr) :=
  match csv_content with
  | [] => inr None
  | _ =>
      match csv_rows csv_content with
      | None => inr None
      | Some [] => inr None
      | Some (_ :: rows) =>
          let '(period_map, periods_list) := foldl process_row (∅, []) rows in
          if decide (period_map = ∅) then inr None
          else
            periods ← sorted_by_int periods_list;
            mret (Some (period_map, periods))
      end
  end.

(** ** Report locator: [find_matching_report] *)

(** The body of the loop over the files: the tuple appended to
    [candidates], if any. *)
Definition report_candidate (w : World) (target_period file_path : pystr)
    : option (datetime * pystr) :=
  match robust_file_read w file_path with
  | None | Some [] => None
  | Some content =>
      match search cutoff_at content with
      | Some cutoff =>
          if decide (cutoff = target_period) then
            timestamp_str ← search timestamp_at file_path;
            timestamp ← strptime timestamp_str;
            Some (timestamp, file_path)
          else None
      | None => None
      end
  end.

Definition find_matching_report (w : World) (target_period : pystr)
    : option pystr :=
  match omap (report_candidate w target_period) (glob_reports w) with
  | [] => None
  | candidates => snd <$> head (sort_reverse candidate_lt candidates)
  end.

(** ** Ticket extractor: [parse_recommendations_from_report] *)

(** [[int(x.strip()) for x in re.findall(r'\d', numbers_str)]];
    [None] stands for [ValueError]. *)
Definition bracket_numbers (numbers_str : pystr) : option (list Z) :=
  mapM (fun x => py_int (strip [x])) (filter (fun c => is_digit c = true) numbers_str).

Definition parse_recommendations_from_report (content : pystr) : list (list Z) :=
  foldl (fun recommendations numbers_str =>
           match bracket_numbers numbers_str with
           | Some numbers =>
               if bool_decide (length numbers = 3%nat) && all_digits numbers
               then recommendations ++ [numbers]
               else recommendations
           | None => recommendations
           end)
        [] (finditer ticket_at content).

(** ** Orchestrator: [main_process] *)

(** A value of type [Optional[str]] that passes [if x:]. *)
Definition truthy (o : option pystr) : option pystr :=
  match o with
  | Some (c :: s) => Some (c :: s)
  | _ => None
  end.

(** The body of the [try]. *)
Definition main_try (w : World) : Exn + World :=
  match truthy (robust_file_read w (path_join (script_dir w) CSV_FILE)) with
  | None => raise (MSG_READ_CSV ++ CSV_FILE)
  | Some csv_content =>
  parsed ← get_period_data_from_csv csv_content;
  match parsed with
  | None => raise MSG_NO_DATA
  | Some (period_data, periods) =>
  if bool_decide (period_data = ∅) || bool_decide (periods = []) then raise MSG_NO_DATA
  else if bool_decide (length periods < 2)%nat then raise MSG_TOO_FEW
  else
  eval_period ← index periods (length periods - 1);
  data_cutoff_period ← index periods (length periods - 2);
  match truthy (find_matching_report w data_cutoff_period) with
  | None => raise (MSG_NO_REPORT_HEAD ++ data_cutoff_period ++ MSG_NO_REPORT_TAIL)
  | Some report_file =>
  match truthy (robust_file_read w report_file) with
  | None => raise (MSG_READ_REPORT ++ report_file)
  | Some report_content =>
  match parse_recommendations_from_report report_content with
  | [] => raise MSG_NO_TICKETS
  | recommendations =>
  match period_data !! eval_period with
  | None => inl (KeyError eval_period)
  | Some prize_numbers =>
  let result := calculate_prize recommendations prize_numbers in
  winning_details_formatted ←
    format_winning_details (winning_details result) prize_numbers;
  prize_numbers_str ← three_digits prize_numbers;
  let report_entry :=
    {| entry_timestamp := now w;
       entry_period := eval_period;
       entry_prize_numbers := prize_numbers_str;
       entry_total_recommendations := Z.of_nat (length recommendations);
       entry_winning_count := Z.of_nat (length (winning_details result));
       entry_total_prize := total_prize result;
       entry_winning_details := winning_details_formatted |} in
  mret (manage_report (Some report_entry) None w)
  end end end end end end.

(** [main_process]: what the caller sees, an exception or the world left
    behind.  [except Exception] catches every exception of [Exn]. *)
Definition main_process (w : World) : Exn + World :=
  match main_try w with
  | inr w' => inr w'
  | inl e => inr (manage_report None (Some (MSG_ERROR_HEAD ++ exn_str e)) w)
  end.

End Program.

(** ** A reference runtime

    An executable [PyRuntime], for running the program on concrete inputs.
    It agrees with CPython on text whose digits are ASCII, whose only line
    break is the newline and that holds no quote character: [\d] is
    [0-9], [csv_rows] splits lines at newlines and fields at commas, and
    [strptime] reads fourteen ASCII digits around an underscore. *)
Module Ref.

Definition isspace (c : Z) : bool :=
  bool_decide (9 <= c <= 13 \/ 28 <= c <= 32 \/ c = 133 \/ c = 160 \/ c = 5760 \/
               8192 <= c <= 8202 \/ c = 8232 \/ c = 8233 \/ c = 8239 \/
               c = 8287 \/ c = 12288).

Definition decimal (c : Z) : option Z :=
  if bool_decide (48 <= c <= 57) then Some (c - 48) else None.

(** Digits with single underscores between them; [after_digit] tells
    whether the previous character was a digit. *)
Fixpoint int_body (s : pystr) (after_digit : bool) (acc : Z) : option Z :=
  match s with
  | [] => if after_digit then Some acc else None
  | c :: s' =>
      if decide (c = 95) then
        if after_digit then int_body s' false acc else None
      else
        match decimal c with
        | Some d => int_body s' true (10 * acc + d)
        | None => None
        end
  end.

Definition int (s : pystr) : option Z :=
  let t := strip_with isspace s in
  if bool_decide (4300 < length t)%nat then None
  else
    match t with
    | c :: body =>
        if decide (c = 43) then int_body body false 0
        else if decide (c = 45) then Z.opp <$> int_body body false 0
        else int_body t false 0
    | [] => None
    end.

(** [s.split(sep)] for a one-character separator. *)
Fixpoint split_on (sep : Z) (s : pystr) : list pystr :=
  match s with
  | [] => [[]]
  | c :: s' =>
      if decide (c = sep) then [] :: split_on sep s'
      else match split_on sep s' with
           | field :: fields => (c :: field) :: fields
           | [] => [[c]]
           end
  end.

Definition splitlines (s : pystr) : list pystr :=
  let parts := split_on 10 s in
  match last parts with
  | Some [] => removelast parts
  | _ => parts
  end.

Definition csv (content : pystr) : option (list (list pystr)) :=
  Some ((fun line => match line with [] => [] | _ => split_on 44 line end)
          <$> splitlines content).

Definition leap (y : Z) : bool :=
  ((y mod 4 =? 0) && negb (y mod 100 =? 0)) || (y mod 400 =? 0).

Definition days_in_month (y m : Z) : Z :=
  if m =? 2 then (if leap y then 29 else 28)
  else if (m =? 4) || (m =? 6) || (m =? 9) || (m =? 11) then 30 else 31.

Definition parse_time (s : pystr) : option datetime :=
  '(y, r0) ← exactly 4 (fun c => bool_decide (is_Some (decimal c))) s;
  '(m, r1) ← exactly 2 (fun c => bool_decide (is_Some (decimal c))) r0;
  '(d, r2) ← exactly 2 (fun c => bool_decide (is_Some (decimal c))) r1;
  r3 ← expect [95] r2;
  '(hh, r4) ← exactly 2 (fun c => bool_decide (is_Some (decimal c))) r3;
  '(mm, r5) ← exactly 2 (fun c => bool_decide (is_Some (decimal c))) r4;
  '(ss, r6) ← exactly 2 (fun c => bool_decide (is_Some (decimal c))) r5;
  let num := fun ds : pystr => of_digits ((fun c => c - 48) <$> ds) in
  if bool_decide (r6 = []) && bool_decide (1 <= num y)
     && bool_decide (1 <= num m <= 12)
     && bool_decide (1 <= num d <= days_in_month (num y) (num m))
     && bool_decide (num hh <= 23) && bool_decide (num mm <= 59)
     && bool_decide (num ss <= 59)
  then Some {| year := num y; month := num m; day := num d;
               hour := num hh; minute := num mm; second := num ss |}
  else None.

Definition text (e : Exn) : pystr :=
  match e with
  | Exception msg => msg
  | ValueError literal => literal
  | KeyError key => key
  | IndexError => []
  end.

End Ref.

(** The reference runtime satisfies the facts [PyRuntime] asks for. *)

Lemma drop_while_head (p : Z -> bool) (c : Z) (s : pystr) :
  p c = false -> drop_while p (c :: s) = c :: s.
Proof. intros Hc. simpl. by rewrite Hc. Qed.

Lemma strip_with_cons_space (p : Z -> bool) (c : Z) (s : pystr) :
  p c = true -> strip_with p (c :: s) = strip_with p s.
Proof. intros Hc. unfold strip_with. simpl. by rewrite Hc. Qed.

Lemma strip_with_snoc_space (p : Z -> bool) (c : Z) (s : pystr) :
  p c = true -> strip_with p (s ++ [c]) = strip_with p s.
Proof.
  intros Hc. induction s as [|a s IH].
  - unfold strip_with. simpl. rewrite Hc. reflexivity.
  - destruct (p a) eqn:Ha.
    + rewrite <- app_comm_cons, !strip_with_cons_space by done. exact IH.
    + unfold strip_with. rewrite <- app_comm_cons, !drop_while_head by done.
      rewrite app_comm_cons, reverse_snoc. simpl. by rewrite Hc.
Qed.

Lemma strip_with_no_space (p : Z -> bool) (s : pystr) :
  Forall (fun c => p c = false) s -> strip_with p s = s.
Proof.
  intros Hs. unfold strip_with.
  assert (Hd : forall t, Forall (fun c => p c = false) t -> drop_while p t = t).
  { intros [|c t] Ht; [done|]. apply drop_while_head. by inversion Ht. }
  rewrite (Hd s Hs), Hd, reverse_involutive; [done|].
  by apply Forall_reverse.
Qed.

Lemma Ref_decimal_Some (c v : Z) :
  Ref.decimal c = Some v -> 48 <= c <= 57 /\ v = c - 48.
Proof.
  unfold Ref.decimal. destruct (bool_decide (48 <= c <= 57)) eqn:Hc; [|done].
  apply bool_decide_eq_true in Hc. intros [= <-]. done.
Qed.

Lemma Ref_space_not_decimal (c : Z) :
  Ref.isspace c = true -> Ref.decimal c = None.
Proof.
  unfold Ref.isspace, Ref.decimal. intros Hc%bool_decide_eq_true.
  rewrite bool_decide_eq_false_2; [done | lia].
Qed.

Lemma Ref_int_body_digits (s : pystr) (ds : list Z) (after_digit : bool) (acc : Z) :
  mapM Ref.decimal s = Some ds -> s <> [] \/ after_digit = true ->
  Ref.int_body s after_digit acc = Some (foldl (fun a d => 10 * a + d) acc ds).
Proof.
  revert ds after_digit acc. induction s as [|c s IH]; intros ds after_digit acc Hds Hne.
  - destruct Hne as [Hne | ->]; [done|].
    apply mapM_Some in Hds. inversion Hds. reflexivity.
  - apply mapM_Some in Hds. inversion Hds as [|? d ? ds' Hc Hrest]; subst.
    apply Ref_decimal_Some in Hc as Hc'. simpl.
    destruct (decide (c = 95)); [lia|]. rewrite Hc.
    apply IH; [by apply mapM_Some | by right].
Qed.

Lemma Ref_int_digits (s : pystr) (ds : list Z) :
  s <> [] -> (length s <= 640)%nat -> mapM Ref.decimal s = Some ds ->
  Ref.int s = Some (of_digits ds).
Proof.
  intros Hne Hlen Hds. unfold Ref.int.
  assert (Hall : Forall (fun c => is_Some (Ref.decimal c)) s).
  { apply mapM_Some in Hds. clear -Hds. induction Hds; constructor; eauto. }
  rewrite strip_with_no_space.
  2:{ eapply Forall_impl; [exact Hall|]. intros c [v Hv]. simpl.
      destruct (Ref.isspace c) eqn:Hc; [|done].
      apply Ref_space_not_decimal in Hc. congruence. }
  rewrite bool_decide_eq_false_2 by lia.
  destruct s as [|c s]; [done|].
  inversion Hall as [|? ? [v Hv] _]; subst.
  apply Ref_decimal_Some in Hv as [Hc _].
  destruct (decide (c = 43)) as [->|]; [lia|].
  destruct (decide (c = 45)) as [->|]; [lia|].
  apply Ref_int_body_digits; [done | by left].
Qed.

#[global] Instance RefRuntime : PyRuntime.
Proof.
  refine {| py_isspace := Ref.isspace; py_decimal := Ref.decimal;
            py_int := Ref.int; csv_rows := Ref.csv;
            strptime := Ref.parse_time; exn_str := Ref.text |}.
  - intros c v Hc%Ref_decimal_Some. lia.
  - intros c Hc. unfold Ref.decimal. by rewrite bool_decide_eq_true_2.
  - reflexivity.
  - exact Ref_space_not_decimal.
  - intros c Hc.
    repeat (apply elem_of_cons in Hc as [->|Hc]; [by vm_compute|]).
    by apply not_elem_of_nil in Hc.
  - exact Ref_int_digits.
  - intros s. unfold Ref.int. by rewrite strip_with_snoc_space.
  - reflexivity.
Defined.

(** * Specifications

    Definitions that follow the wording of the specification, to be
    compared with the program, and the inputs the examples run on. *)

(** ** Specification of the prize tiers *)

(** A ticket, or a draw: three digits, each in [0,9]. *)
Definition is_ticket (t : list Z) : Prop :=
  length t = 3%nat /\ Forall (fun x => 0 <= x <= 9) t.

Inductive PrizeTier := Exact | Group3 | Group6 | NoTier.

(** Same digits as a set, duplicates collapsed. *)
Definition same_digit_set (ticket draw : list Z) : Prop :=
  ticket ⊆ draw /\ draw ⊆ ticket.

(** The tier of a ticket, in the priority order of the specification. *)
Definition spec_tier (ticket draw : list Z) : PrizeTier :=
  if decide (ticket = draw) then Exact
  else if decide (same_digit_set ticket draw) then
    if decide (NoDup ticket) then Group6 else Group3
  else NoTier.

(** The entries of [winning_details] recorded for ticket number [k]. *)
Definition details_for (k : Z) (st : PrizeState) : list WinningDetail :=
  filter (fun d => ticket_id d = k) (winning_details st).

(** The expected entry for ticket number [i] (0-based), if it wins. *)
Definition spec_detail (draw : list Z) (i : Z) (ticket : list Z)
    : list WinningDetail :=
  match spec_tier ticket draw with
  | Exact => [{| ticket_id := i + 1; numbers := ticket;
                 prize_level := ZhiXuan; amount := 1000 |}]
  | Group3 => [{| ticket_id := i + 1; numbers := ticket;
                  prize_level := ZuXuan3; amount := 333 |}]
  | Group6 => [{| ticket_id := i + 1; numbers := ticket;
                  prize_level := ZuXuan6; amount := 167 |}]
  | NoTier => []
  end.

(** The expected [winning_details] for the tickets numbered from [i]. *)
Fixpoint spec_details (draw : list Z) (i : Z) (tickets : list (list Z))
    : list WinningDetail :=
  match tickets with
  | [] => []
  | t :: rest => spec_detail draw i t ++ spec_details draw (i + 1) rest
  end.

(** ** Specification of the report locator *)

(** [a] is not later than [b]: the order of the calendar, read off the
    fields from the year down to the second. *)
Definition datetime_le (a b : datetime) : Prop :=
  year a < year b \/ year a = year b /\
  (month a < month b \/ month a = month b /\
   (day a < day b \/ day a = day b /\
    (hour a < hour b \/ hour a = hour b /\
     (minute a < minute b \/ minute a = minute b /\
      second a <= second b)))).

Definition SAMPLE_DIR : pystr := Eval cbv in str "/app".
Definition SAMPLE_TIME : pystr := Eval cbv in str "2024-05-01 21:30:00".

Section LocatorSpec.
Context `{PyRuntime}.

(** A file the locator may return for [target_period]: one of the globbed
    files, readable and not empty, whose cutoff marker carries
    [target_period] and whose name ends in a time stamp that parses to
    [timestamp]. *)
Definition eligible (w : World) (target_period file_path : pystr)
    (timestamp : datetime) : Prop :=
  file_path ∈ glob_reports w /\
  exists content timestamp_str,
    robust_file_read w file_path = Some content /\ content <> [] /\
    search cutoff_at content = Some target_period /\
    search timestamp_at file_path = Some timestamp_str /\
    strptime timestamp_str = Some timestamp.

End LocatorSpec.

(** The tuple [(timestamp, file_path)] as one sequence: comparing two of
    them as sequences compares them as tuples. *)
Definition candidate_key (c : datetime * pystr) : list Z := datetime_key c.1 ++ c.2.

(** Three report files for the locator: two with the cutoff period 100 and
    the time stamps 20240101_100000 and 20240102_090000, and one with the
    same cutoff whose name carries no time stamp. *)
Definition REPORT_A : pystr :=
  Eval cbv in str "/app/pls_analysis_output_20240101_100000.txt".
Definition REPORT_B : pystr :=
  Eval cbv in str "/app/pls_analysis_output_20240102_090000.txt".
Definition REPORT_C : pystr :=
  Eval cbv in str "/app/pls_analysis_output_latest.txt".
Definition REPORT_TEXT : pystr := Eval cbv in str
"分析基于数据: 截至 100 期
注 1: [1, 2, 3]
".
Definition TARGET_100 : pystr := Eval cbv in str "100".

Definition LOCATOR_WORLD : World :=
  {| script_dir := SAMPLE_DIR;
     glob_reports := [REPORT_B; REPORT_C; REPORT_A];
     files := list_to_map [(REPORT_A, REPORT_TEXT); (REPORT_B, REPORT_TEXT);
                           (REPORT_C, REPORT_TEXT)];
     now := SAMPLE_TIME |}.

(** ** Specification of the report writer *)

(** One line of text, with its line end. *)
Definition line (s : pystr) : pystr := s ++ [10].

(** The block of an outcome record: the key-value lines, the lines of the
    winning details, and the separator. *)
Definition outcome_block (e : ReportEntry) : pystr :=
  line (TXT_EVAL_TIME ++ entry_timestamp e) ++
  line (TXT_EVAL_PERIOD ++ entry_period e) ++
  line (TXT_DRAW ++ entry_prize_numbers e) ++
  line (TXT_TICKET_COUNT ++ str_int (entry_total_recommendations e)) ++
  line (TXT_WIN_COUNT ++ str_int (entry_winning_count e)) ++
  line (TXT_TOTAL ++ str_int (entry_total_prize e) ++ TXT_YUAN) ++
  line [] ++
  concat (line <$> entry_winning_details e) ++
  line [] ++ line SEPARATOR ++ line [].

(** The block of an error record written at [time]. *)
Definition error_block (time message : pystr) : pystr :=
  line (TXT_ERROR_TIME ++ time) ++ line (TXT_ERROR_INFO ++ message) ++
  line [] ++ line SEPARATOR ++ line [].

(** The persisted log: the text of the main report file, empty when the
    file is missing. *)
Definition persisted_log (w : World) : pystr :=
  default [] (robust_file_read w (report_path w)).

(** The world in which the log holds [content] and nothing else differs. *)
Definition with_log (w : World) (content : pystr) : World :=
  write_file w (report_path w) content.

(** Outcome records inserted one after the other, the first of the list
    first. *)
Definition insert_outcomes (w : World) (entries : list ReportEntry) : World :=
  foldl (fun w e => manage_report (Some e) None w) w entries.

Definition insert_errors (w : World) (messages : list pystr) : World :=
  foldl (fun w m => manage_report None (Some m) w) w messages.

(** A world with no file at all. *)
Definition empty_world : World :=
  {| script_dir := SAMPLE_DIR; glob_reports := []; files := ∅;
     now := SAMPLE_TIME |}.

(** The outcome record of an evaluation of period [2024000 + n] in which
    nothing was won. *)
Definition sample_entry (n : Z) : ReportEntry :=
  {| entry_timestamp := SAMPLE_TIME;
     entry_period := str_int (2024000 + n);
     entry_prize_numbers := [49; 50; 51];
     entry_total_recommendations := 5;
     entry_winning_count := 0;
     entry_total_prize := 0;
     entry_winning_details := [TXT_NO_WIN] |}.

(** Eleven outcome records, one more than [MAX_NORMAL_RECORDS]. *)
Definition eleven_entries : list ReportEntry := sample_entry <$> seqZ 1 11.

(** The number of blocks in a log: its separator lines. *)
Definition count_blocks (content : pystr) : nat :=
  length (filter (fun l => l = SEPARATOR) (Ref.split_on 10 content)).

(** ** Specification of the draw history store *)

Section DrawSpec.
Context `{PyRuntime}.

(** A valid draw record: at least four fields, the first a period code of 4
    to 7 digits, the next three integers of [0,9].  Its period and digits. *)
Definition valid_record (row : list pystr) : option (pystr * list Z) :=
  match row with
  | period :: f1 :: f2 :: f3 :: _ =>
      if match_period_code period then
        d1 ← py_int f1; d2 ← py_int f2; d3 ← py_int f3;
        if bool_decide (0 <= d1 <= 9 /\ 0 <= d2 <= 9 /\ 0 <= d3 <= 9)
        then Some (period, [d1; d2; d3]) else None
      else None
  | _ => None
  end.

(** The numeric value of a period code: its decimal digits read in base
    ten. *)
Definition period_value (period : pystr) : Z := of_digits (omap py_decimal period).

(** The valid records of a dataset, in file order; nothing when the dataset
    is empty, cannot be read as rows or has no header row. *)
Definition valid_records (csv_content : pystr) : list (pystr * list Z) :=
  match csv_content with
  | [] => []
  | _ =>
      match csv_rows csv_content with
      | Some (_ :: rows) => omap valid_record rows
      | _ => []
      end
  end.

End DrawSpec.

(** The map built from records inserted in order, a later record
    overwriting an earlier one of the same period. *)
Definition insert_records (m : gmap pystr (list Z)) (records : list (pystr * list Z))
    : gmap pystr (list Z) :=
  foldl (fun m r => <[r.1 := r.2]> m) m records.

Definition P99 : pystr := Eval cbv in str "99".
Definition P100 : pystr := Eval cbv in str "100".

(** A dataset with two rows for period 2024002, and codes of 4, 5 and 7
    digits. *)
Definition SAMPLE_CSV : pystr := Eval cbv in str
"period,d1,d2,d3
2024001,1,2,3
2024002,4,5,6
9999,7,7,7
2024002,6,5,4
10000,0,0,1
".

Definition P9999 : pystr := Eval cbv in str "9999".
Definition P10000 : pystr := Eval cbv in str "10000".
Definition P2024001 : pystr := Eval cbv in str "2024001".
Definition P2024002 : pystr := Eval cbv in str "2024002".

Definition SAMPLE_PERIODS : list pystr :=
  [P9999; P10000; P2024001; P2024002; P2024002].

Definition SAMPLE_MAP : gmap pystr (list Z) :=
  list_to_map [(P9999, [7; 7; 7]); (P10000, [0; 0; 1]);
               (P2024001, [1; 2; 3]); (P2024002, [6; 5; 4])].

(** A dataset that is not empty and has no valid row. *)
Definition NO_VALID_ROW_CSV : pystr := Eval cbv in str
"period,d1,d2,d3
20240,1,2
x,1,2,3
".

(** ** Specification of the ticket extractor *)

Section ExtractorSpec.
Context `{PyRuntime}.

(** The decimal digits among the characters of a bracket, in order of
    appearance, each as its value; every other character separates. *)
Definition bracket_digits (group : pystr) : list Z := omap py_decimal group.

(** The ticket of a bracket: its digits, when there are exactly three. *)
Definition bracket_ticket (group : pystr) : option (list Z) :=
  if decide (length (bracket_digits group) = 3%nat)
  then Some (bracket_digits group) else None.

(** A segment of the shape [注 N: [ ... ]] with [group] in the brackets:
    the ticket sign, a number, a colon and the bracket, white space allowed
    before the number and before the bracket. *)
Definition ticket_segment (segment group : pystr) : Prop :=
  exists space1 index space2,
    segment = TICKET_HEAD ++ space1 ++ index ++ [58] ++ space2 ++ [91] ++ group ++ [93] /\
    Forall (fun c => py_isspace c = true) space1 /\
    index <> [] /\ Forall (fun c => is_digit c = true) index /\
    Forall (fun c => py_isspace c = true) space2 /\
    group <> [] /\ Forall (fun c => in_bracket_class c = true) group.

End ExtractorSpec.

Definition SAMPLE_REPORT : pystr := Eval cbv in str
"分析基于数据: 截至 2024001 期
注 1: [1, 2, 3]
注 2: [4 6 5]
注 3: [12, 3, 4]
注 4: [7,8]
注 5: [9,
 9,9]
".

(** ** Specification of the orchestrator *)

(** The digits of a ticket or a draw, written one after the other. *)
Definition digits_text (l : list Z) : pystr := concat (str_int <$> l).

(** The line of one winning ticket. *)
Definition detail_line (d : WinningDetail) : pystr :=
  TXT_ORDINAL ++ str_int (ticket_id d) ++ TXT_TICKET ++ digits_text (numbers d) ++
  TXT_DASH ++ prize_level_str (prize_level d) ++ TXT_DASH ++
  str_int (amount d) ++ TXT_YUAN.

(** The winning-detail lines of an outcome record; a single line when no
    ticket won. *)
Definition winning_lines (details : list WinningDetail) (draw : list Z) : list pystr :=
  match details with
  | [] => [TXT_NO_WIN]
  | _ => [TXT_DRAW ++ digits_text draw; []] ++ (detail_line <$> details)
  end.

(** The outcome record of evaluating [tickets] against [draw], the draw of
    [eval_period]. *)
Definition outcome_entry (w : World) (eval_period : pystr) (draw : list Z)
    (tickets : list (list Z)) : ReportEntry :=
  let result := calculate_prize tickets draw in
  {| entry_timestamp := now w;
     entry_period := eval_period;
     entry_prize_numbers := digits_text draw;
     entry_total_recommendations := Z.of_nat (length tickets);
     entry_winning_count := Z.of_nat (length (winning_details result));
     entry_total_prize := total_prize result;
     entry_winning_details := winning_lines (winning_details result) draw |}.

(** The error record of a run that failed for [reason]. *)
Definition failure_block (w : World) (reason : pystr) : pystr :=
  error_block (now w) (MSG_ERROR_HEAD ++ reason).

Definition csv_path (w : World) : pystr := path_join (script_dir w) CSV_FILE.

Section OrchestratorSpec.
Context `{PyRuntime}.

(** The states a run goes through, up to the state that decides the record
    it leaves. *)
Inductive ReadHistory (w : World) (csv_content : pystr) : Prop :=
  | read_history :
      truthy (robust_file_read w (csv_path w)) = Some csv_content ->
      ReadHistory w csv_content.

Inductive DetermineEvalPeriod (w : World) (period_data : gmap pystr (list Z))
    (eval_period data_cutoff_period : pystr) : Prop :=
  | determine_eval_period csv_content earlier :
      ReadHistory w csv_content ->
      get_period_data_from_csv csv_content =
        inr (Some (period_data, earlier ++ [data_cutoff_period; eval_period])) ->
      DetermineEvalPeriod w period_data eval_period data_cutoff_period.

Inductive LocateReport (w : World) (period_data : gmap pystr (list Z))
    (eval_period report_file : pystr) : Prop :=
  | locate_report data_cutoff_period :
      DetermineEvalPeriod w period_data eval_period data_cutoff_period ->
      truthy (find_matching_report w data_cutoff_period) = Some report_file ->
      LocateReport w period_data eval_period report_file.

(** [run_record w block]: the run in world [w] ends by writing [block]. *)
Inductive run_record (w : World) : pystr -> Prop :=
  | failed_unreadable_dataset :
      truthy (robust_file_read w (csv_path w)) = None ->
      run_record w (failure_block w (MSG_READ_CSV ++ CSV_FILE))
  | failed_no_valid_records csv_content :
      ReadHistory w csv_content ->
      valid_records csv_content = [] ->
      run_record w (failure_block w MSG_NO_DATA)
  | failed_too_few_periods csv_content period_data periods :
      ReadHistory w csv_content ->
      get_period_data_from_csv csv_content = inr (Some (period_data, periods)) ->
      (length periods < 2)%nat ->
      run_record w (failure_block w MSG_TOO_FEW)
  | failed_no_matching_report period_data eval_period data_cutoff_period :
      DetermineEvalPeriod w period_data eval_period data_cutoff_period ->
      truthy (find_matching_report w data_cutoff_period) = None ->
      run_record w (failure_block w
        (MSG_NO_REPORT_HEAD ++ data_cutoff_period ++ MSG_NO_REPORT_TAIL))
  | failed_unreadable_report period_data eval_period report_file :
      LocateReport w period_data eval_period report_file ->
      truthy (robust_file_read w report_file) = None ->
      run_record w (failure_block w (MSG_READ_REPORT ++ report_file))
  | failed_no_tickets period_data eval_period report_file report_content :
      LocateReport w period_data eval_period report_file ->
      truthy (robust_file_read w report_file) = Some report_content ->
      parse_recommendations_from_report report_content = [] ->
      run_record w (failure_block w MSG_NO_TICKETS)
  | succeeded period_data eval_period report_file report_content draw :
      LocateReport w period_data eval_period report_file ->
      truthy (robust_file_read w report_file) = Some report_content ->
      parse_recommendations_from_report report_content <> [] ->
      period_data !! eval_period = Some draw ->
      run_record w (outcome_block
        (outcome_entry w eval_period draw
           (parse_recommendations_from_report report_content))).

End OrchestratorSpec.

(** A world for a whole run: two draws, and a report computed from the
    first that recommends three tickets. *)
Definition RUN_CSV : pystr := Eval cbv in str
"period,d1,d2,d3
2024118,1,2,3
2024119,4,5,6
".
Definition RUN_REPORT : pystr :=
  Eval cbv in str "/app/pls_analysis_output_20240501_200000.txt".
Definition RUN_REPORT_TEXT : pystr := Eval cbv in str
"分析基于数据: 截至 2024118 期
注 1: [1, 2, 3]
注 2: [4, 6, 5]
注 3: [7, 8, 9]
".
Definition RUN_CSV_PATH : pystr := Eval cbv in str "/app/pls.csv".
Definition P2024119 : pystr := Eval cbv in str "2024119".

Definition RUN_WORLD : World :=
  {| script_dir := SAMPLE_DIR;
     glob_reports := [RUN_REPORT];
     files := list_to_map [(RUN_CSV_PATH, RUN_CSV); (RUN_REPORT, RUN_REPORT_TEXT)];
     now := SAMPLE_TIME |}.

(** ** Further notions for the prize engine *)

(** The sum of the amounts of a list of winning details. *)
Definition sum_amounts (details : list WinningDetail) : Z :=
  foldr (fun d acc => amount d + acc) 0 details.

(** The number of winning details of a level. *)
Definition count_level (level : PrizeLevel) (details : list WinningDetail) : Z :=
  Z.of_nat (length (filter (fun d => prize_level d = level) details)).

(** A winning detail with its ticket number moved up by [n]. *)
Definition shift_ticket (n : Z) (d : WinningDetail) : WinningDetail :=
  {| ticket_id := ticket_id d + n; numbers := numbers d;
     prize_level := prize_level d; amount := amount d |}.

(** The level the loop body gives a ticket of any length, read off its
    tests. *)
Definition ticket_level (ticket draw : list Z) : option PrizeLevel :=
  if decide (ticket = draw) then Some ZhiXuan
  else if decide ((list_to_set ticket : gset Z) = list_to_set draw) then
    Some (if decide (size (list_to_set ticket : gset Z) = 3%nat)
          then ZuXuan6 else ZuXuan3)
  else None.

(** The details the loop appends for the tickets numbered from [i]. *)
Fixpoint ticket_details (draw : list Z) (i : Z) (tickets : list (list Z))
    : list WinningDetail :=
  match tickets with
  | [] => []
  | t :: rest =>
      match ticket_level t draw with
      | Some level =>
          [{| ticket_id := i + 1; numbers := t; prize_level := level;
              amount := PRIZE_TABLE level |}]
      | None => []
      end ++ ticket_details draw (i + 1) rest
  end.

(** The counters after the details [details] have been counted. *)
Definition bump_counts (counts : gmap PrizeLevel Z) (details : list WinningDetail)
    : gmap PrizeLevel Z :=
  foldl (fun c d => <[prize_level d := default 0 (c !! prize_level d) + 1]> c)
    counts details.

(** ** Further notions for the formatting of winning details *)

(** A winning detail with the digits after the third dropped. *)
Definition first_three (d : WinningDetail) : WinningDetail :=
  {| ticket_id := ticket_id d; numbers := take 3 (numbers d);
     prize_level := prize_level d; amount := amount d |}.

(** ** Further notions for the report writer *)


(** Calls of [manage_report] one after the other, the first of the list
    first. *)
Definition manage_reports (w : World)
    (calls : list (option ReportEntry * option pystr)) : World :=
  foldl (fun w call => manage_report call.1 call.2 w) w calls.

(** ** Further notions for the draw history store *)

Section DrawResultSpec.
Context `{PyRuntime}.

(** The periods of the records in ascending order of their numeric values,
    periods of equal value in the order of the records. *)
Definition sorted_periods (records : list (pystr * list Z)) : list pystr :=
  stable_sort (fun a b => period_value a <? period_value b) records.*1.

End DrawResultSpec.

(** ** Further notions for the report locator *)

(** Two reports with the cutoff period 100 and the same time stamp, and a
    world that lists them, the report of [LOCATOR_WORLD] with the same stamp
    last. *)
Definition REPORT_B2 : pystr :=
  Eval cbv in str "/app/pls_analysis_output_v2_20240102_090000.txt".

Definition TIE_WORLD : World :=
  {| script_dir := SAMPLE_DIR;
     glob_reports := [REPORT_B2; REPORT_A; REPORT_B];
     files := list_to_map [(REPORT_A, REPORT_TEXT); (REPORT_B, REPORT_TEXT);
                           (REPORT_B2, REPORT_TEXT)];
     now := SAMPLE_TIME |}.

Definition DATE_STAMP_B : pystr := Eval cbv in str "20240102_090000".

Definition STAMP_B : datetime :=
  {| year := 2024; month := 1; day := 2; hour := 9; minute := 0; second := 0 |}.

(** [LOCATOR_WORLD] with its reports listed in another order, and one more
    file that is not listed. *)
Definition LOCATOR_WORLD_2 : World :=
  {| script_dir := SAMPLE_DIR;
     glob_reports := [REPORT_A; REPORT_C; REPORT_B];
     files := <[REPORT_B2 := REPORT_TEXT]> (files LOCATOR_WORLD);
     now := SAMPLE_TIME |}.

(** ** Further notions for the ticket extractor *)

Section ExtractorReportSpec.
Context `{PyRuntime}.

(** A text without the ticket sign [注]. *)
Definition no_ticket_sign (text : pystr) : Prop :=
  Forall (fun c => [c] <> TICKET_HEAD) text.

(** [ticket_report content groups]: [content] is made of ticket segments
    with the brackets [groups], in this order, with text that does not hold
    the ticket sign before, between and after them. *)
Inductive ticket_report : pystr -> list pystr -> Prop :=
  | report_tail text :
      no_ticket_sign text -> ticket_report text []
  | report_ticket text segment group rest groups :
      no_ticket_sign text -> ticket_segment segment group ->
      ticket_report rest groups ->
      ticket_report (text ++ segment ++ rest) (group :: groups).

End ExtractorReportSpec.

Definition REPORT_HEADER : pystr := Eval cbv in str "分析基于数据: 截至 100 期
".
Definition REPORT_SEGMENT : pystr := Eval cbv in str "注 1: [1, 2, 3]".
Definition REPORT_GROUP : pystr := Eval cbv in str "1, 2, 3".

(** ** Report names and cutoff markers *)

(** The cutoff marker of a report, with the white space the pattern allows. *)
Definition cutoff_marker (space1 space2 digits space3 : pystr) : pystr :=
  MARKER_HEAD ++ space1 ++ MARKER_UPTO ++ space2 ++ digits ++ space3 ++ MARKER_PERIOD.

(** A file name that ends in a time stamp. *)
Definition stamped_name (stem date time : pystr) : pystr :=
  stem ++ [95] ++ date ++ [95] ++ time ++ TXT_SUFFIX.

Definition REPORT_STEM : pystr := Eval cbv in str "/app/pls_analysis_output".
Definition DATE_B : pystr := Eval cbv in str "20240102".
Definition TIME_B : pystr := Eval cbv in str "090000".
Definition REPORT_TAIL : pystr := Eval cbv in str "
注 1: [1, 2, 3]
".

(** ** Further notions for the orchestrator *)

(** Two worlds that agree on all a run reads: the directory of the script,
    the clock, the dataset, the list of report files and their contents. *)
Definition same_inputs (w w' : World) : Prop :=
  script_dir w = script_dir w' /\ now w = now w' /\
  glob_reports w ≡ₚ glob_reports w' /\
  files w !! csv_path w = files w' !! csv_path w /\
  forall file_path, file_path ∈ glob_reports w ->
    files w !! file_path = files w' !! file_path.

Definition OLD_LOG : pystr := Eval cbv in str "earlier records
".

(** * Properties of the prize engine *)

Lemma list_to_set_eq_same_digits (t d : list Z) :
  (list_to_set t : gset Z) = list_to_set d <-> same_digit_set t d.
Proof.
  unfold same_digit_set. rewrite set_eq. setoid_rewrite elem_of_list_to_set.
  split.
  - intros Heq. split; intros x Hx; by apply Heq.
  - intros [H1 H2] x. split; [apply H1 | apply H2].
Qed.

Lemma size_list_to_set_le (l : list Z) :
  (size (list_to_set l : gset Z) <= length l)%nat.
Proof.
  induction l as [|x l IH].
  - reflexivity.
  - rewrite list_to_set_cons, size_union_alt, size_singleton. simpl length.
    pose proof (subseteq_size (list_to_set l ∖ {[x]}) (list_to_set l : gset Z)
                  ltac:(set_solver)).
    lia.
Qed.

Lemma size_list_to_set_NoDup (l : list Z) :
  size (list_to_set l : gset Z) = length l <-> NoDup l.
Proof.
  split; [|apply size_list_to_set].
  induction l as [|x l IH]; intros Hsize; [constructor|].
  rewrite list_to_set_cons in Hsize. simpl length in Hsize.
  pose proof (size_list_to_set_le l) as Hle.
  destruct (decide (x ∈ l)) as [Hin|Hnin].
  - assert (Heq : ({[x]} ∪ list_to_set l : gset Z) = list_to_set l) by set_solver.
    rewrite Heq in Hsize. lia.
  - constructor; [done|]. apply IH.
    rewrite size_union, size_singleton in Hsize by set_solver. lia.
Qed.

Lemma calculate_prize_step_details (draw : list Z) (st : PrizeState) (i : Z)
    (ticket : list Z) :
  length ticket = 3%nat ->
  winning_details (calculate_prize_step draw st i ticket) =
  winning_details st ++ spec_detail draw i ticket.
Proof.
  intros Hlen. unfold calculate_prize_step, spec_detail, spec_tier.
  destruct (decide (ticket = draw)) as [->|Hne]; [reflexivity|].
  destruct (decide (list_to_set ticket = list_to_set draw)) as [Hset|Hset];
    destruct (decide (same_digit_set ticket draw)) as [Hsame|Hsame];
    try (apply list_to_set_eq_same_digits in Hset; contradiction);
    try (apply list_to_set_eq_same_digits in Hsame; contradiction).
  - destruct (decide (size (list_to_set ticket : gset Z) = 3%nat)) as [Hsz|Hsz];
      destruct (decide (NoDup ticket)) as [Hnd|Hnd]; try reflexivity.
    + rewrite <- Hlen in Hsz. apply size_list_to_set_NoDup in Hsz. contradiction.
    + apply size_list_to_set_NoDup in Hnd. congruence.
  - by rewrite app_nil_r.
Qed.

Lemma calculate_prize_loop_details (draw : list Z) (tickets : list (list Z)) :
  Forall (fun t => length t = 3%nat) tickets ->
  forall i st,
  winning_details (calculate_prize_loop draw i tickets st) =
  winning_details st ++ spec_details draw i tickets.
Proof.
  induction 1 as [|t rest Ht _ IH]; intros i st; simpl.
  - by rewrite app_nil_r.
  - rewrite IH, calculate_prize_step_details by done. by rewrite <- app_assoc.
Qed.

Lemma spec_detail_id (draw : list Z) (i : Z) (t : list Z) :
  Forall (fun d => ticket_id d = i + 1) (spec_detail draw i t).
Proof. unfold spec_detail. destruct (spec_tier t draw); repeat constructor. Qed.

Lemma spec_details_id_lower (draw : list Z) (tickets : list (list Z)) (i : Z) :
  Forall (fun d => i + 1 <= ticket_id d) (spec_details draw i tickets).
Proof.
  revert i. induction tickets as [|t rest IH]; intros i; simpl; [constructor|].
  apply Forall_app. split.
  - eapply Forall_impl; [apply spec_detail_id|]. simpl. lia.
  - eapply Forall_impl; [apply IH|]. simpl. lia.
Qed.

Lemma filter_all {A} (P : A -> Prop) `{forall x, Decision (P x)} (l : list A) :
  Forall P l -> filter P l = l.
Proof.
  induction 1 as [|x l Hx _ IH]; [done|].
  by rewrite filter_cons_True, IH.
Qed.

Lemma filter_none {A} (P : A -> Prop) `{forall x, Decision (P x)} (l : list A) :
  Forall (fun x => ~ P x) l -> filter P l = [].
Proof.
  induction 1 as [|x l Hx _ IH]; [done|].
  by rewrite filter_cons_False.
Qed.

Lemma spec_details_for (draw : list Z) (tickets : list (list Z)) :
  forall (i : Z) (k : nat) (t : list Z),
  tickets !! k = Some t ->
  filter (fun d => ticket_id d = i + Z.of_nat k + 1) (spec_details draw i tickets)
  = spec_detail draw (i + Z.of_nat k) t.
Proof.
  induction tickets as [|t0 rest IH]; intros i k t Hk; [done|].
  simpl. rewrite filter_app. destruct k as [|k]; simpl in Hk.
  - injection Hk as ->. replace (i + Z.of_nat 0) with i by lia.
    rewrite filter_all by apply spec_detail_id.
    rewrite filter_none; [by rewrite app_nil_r|].
    eapply Forall_impl; [apply spec_details_id_lower|]. simpl. lia.
  - rewrite filter_none.
    2:{ eapply Forall_impl; [apply spec_detail_id|]. simpl. lia. }
    replace (i + Z.of_nat (S k)) with ((i + 1) + Z.of_nat k) by lia.
    by apply IH.
Qed.

(** C1: for tickets and a draw of three digits each in [0,9], the entries
    of [winning_details] for ticket number [k + 1] are: one entry of the
    level 直选 (Exact) with amount 1000 when the ticket equals the draw
    element for element; otherwise, when ticket and draw have the same set
    of digits, one entry of the level 组选6 (Group6) with amount 167 when the
    ticket's digits are pairwise distinct and one of the level 组选3
    (Group3) with amount 333 when a digit repeats; otherwise none.  A ticket
    thus gets at most one tier. *)
Theorem calculate_prize_tiers (recommendations : list (list Z))
    (draw : list Z) (k : nat) (ticket : list Z) :
  Forall is_ticket recommendations -> is_ticket draw ->
  recommendations !! k = Some ticket ->
  details_for (Z.of_nat k + 1) (calculate_prize recommendations draw) =
    if decide (ticket = draw) then
      [{| ticket_id := Z.of_nat k + 1; numbers := ticket;
          prize_level := ZhiXuan; amount := 1000 |}]
    else if decide (same_digit_set ticket draw) then
      if decide (NoDup ticket) then
        [{| ticket_id := Z.of_nat k + 1; numbers := ticket;
            prize_level := ZuXuan6; amount := 167 |}]
      else
        [{| ticket_id := Z.of_nat k + 1; numbers := ticket;
            prize_level := ZuXuan3; amount := 333 |}]
    else [].
Proof.
  intros Htickets _ Hk. unfold details_for, calculate_prize.
  rewrite calculate_prize_loop_details.
  2:{ eapply Forall_impl; [exact Htickets|]. by intros t [Hlen _]. }
  pose proof (spec_details_for draw recommendations 0 k ticket Hk) as Hfor.
  rewrite !Z.add_0_l in Hfor. cbn [winning_details app]. rewrite Hfor.
  unfold spec_detail, spec_tier.
  repeat case_decide; reflexivity.
Qed.
(** Witness of C1: the second of three tickets holds the digits of the draw
    in another order. *)
Lemma calculate_prize_tiers_witness :
  details_for 2 (calculate_prize [[1; 2; 3]; [3; 2; 1]; [1; 1; 2]] [1; 2; 3]) =
  [{| ticket_id := 2; numbers := [3; 2; 1]; prize_level := ZuXuan6; amount := 167 |}].
Proof.
  refine (calculate_prize_tiers [[1; 2; 3]; [3; 2; 1]; [1; 1; 2]] [1; 2; 3]
            1 [3; 2; 1] _ _ _).
  - repeat constructor; lia.
  - repeat constructor; lia.
  - reflexivity.
Defined.

(** * Properties of sorting *)

Section StableSort.
Context {A : Type} (lt : A -> A -> bool).
Hypothesis lt_asym : forall x y, lt x y = true -> lt y x = false.
Hypothesis lt_negtrans :
  forall x y z, lt y x = false -> lt z y = false -> lt z x = false.

(** [x] is not above [y]. *)
Let le (x y : A) : Prop := lt y x = false.

Lemma insert_sorted_perm (x : A) (l : list A) : insert_sorted lt x l ≡ₚ x :: l.
Proof.
  induction l as [|y l IH]; simpl; [done|].
  destruct (lt x y); [done|]. rewrite IH. apply Permutation_swap.
Qed.

Lemma insert_sorted_sorted (x : A) (l : list A) :
  StronglySorted le l -> StronglySorted le (insert_sorted lt x l).
Proof.
  induction 1 as [|y l Hl IH Hy]; simpl.
  - repeat constructor.
  - destruct (lt x y) eqn:Hxy.
    + constructor; [by constructor|].
      assert (Hle : le x y) by (by apply lt_asym).
      constructor; [done|].
      eapply Forall_impl; [exact Hy|]. intros z Hz. unfold le in *. eauto.
    + constructor; [done|].
      rewrite insert_sorted_perm. by constructor.
Qed.

Lemma stable_sort_from_perm (l acc : list A) :
  foldl (fun sorted x => insert_sorted lt x sorted) acc l ≡ₚ acc ++ l.
Proof.
  revert acc. induction l as [|x l IH]; intros acc; simpl.
  - by rewrite app_nil_r.
  - rewrite IH, insert_sorted_perm. simpl. apply Permutation_middle.
Qed.

Lemma stable_sort_from_sorted (l acc : list A) :
  StronglySorted le acc ->
  StronglySorted le (foldl (fun sorted x => insert_sorted lt x sorted) acc l).
Proof.
  revert acc. induction l as [|x l IH]; intros acc Hacc; simpl; [done|].
  by apply IH, insert_sorted_sorted.
Qed.

Lemma stable_sort_perm (l : list A) : stable_sort lt l ≡ₚ l.
Proof. apply (stable_sort_from_perm l []). Qed.

Lemma stable_sort_sorted (l : list A) : StronglySorted le (stable_sort lt l).
Proof. apply stable_sort_from_sorted. constructor. Qed.

Lemma sorted_last_max (l : list A) (c : A) :
  StronglySorted le l -> last l = Some c -> forall x, x ∈ l -> lt c x = false.
Proof.
  induction 1 as [|y l Hl IH Hy]; intros Hlast x Hx; [done|].
  destruct l as [|z l].
  - simpl in Hlast. injection Hlast as <-. apply list_elem_of_singleton in Hx as ->.
    destruct (lt y y) eqn:Hyy; [|done]. by rewrite (lt_asym _ _ Hyy) in Hyy.
  - change (last (z :: l) = Some c) in Hlast.
    apply elem_of_cons in Hx as [->|Hx]; [|by apply IH].
    rewrite Forall_forall in Hy. apply Hy.
    apply last_Some in Hlast as [l' ->]. set_solver.
Qed.

(** The head of a list sorted with [reverse=True] is one of its elements,
    and no element is above it. *)
Lemma sort_reverse_head_max (l : list A) (c : A) :
  head (sort_reverse lt l) = Some c ->
  c ∈ l /\ forall x, x ∈ l -> lt c x = false.
Proof.
  unfold sort_reverse. rewrite head_reverse. intros Hlast.
  pose proof (stable_sort_perm (reverse l)) as Hperm.
  split.
  - apply last_Some in Hlast as [l' Hl']. rewrite Hl' in Hperm.
    rewrite <- (reverse_Permutation l), <- Hperm. set_solver.
  - intros x Hx. eapply sorted_last_max; [apply stable_sort_sorted | done |].
    by rewrite Hperm, reverse_Permutation.
Qed.

Lemma sort_reverse_head_None (l : list A) :
  head (sort_reverse lt l) = None -> l = [].
Proof.
  unfold sort_reverse. rewrite head_reverse, last_None. intros Hnil.
  pose proof (stable_sort_perm (reverse l)) as Hperm. rewrite Hnil in Hperm.
  apply Permutation_nil_l in Hperm. by apply (f_equal reverse) in Hperm;
    rewrite reverse_involutive in Hperm.
Qed.

End StableSort.

Lemma list_lt_asym (a b : list Z) : list_lt a b = true -> list_lt b a = false.
Proof.
  revert b. induction a as [|x a IH]; intros [|y b]; simpl; try done.
  destruct (Z.ltb_spec x y), (Z.ltb_spec y x); try done; try lia. apply IH.
Qed.

Lemma list_lt_negtrans (a b c : list Z) :
  list_lt b a = false -> list_lt c b = false -> list_lt c a = false.
Proof.
  revert b c. induction a as [|x a IH]; intros [|y b] [|z c]; simpl; try done.
  destruct (Z.ltb_spec y x), (Z.ltb_spec x y), (Z.ltb_spec z y),
    (Z.ltb_spec y z), (Z.ltb_spec z x), (Z.ltb_spec x z);
    try done; try lia. apply IH.
Qed.

Lemma list_lt_irrefl (a : list Z) : list_lt a a = false.
Proof. destruct (list_lt a a) eqn:Ha; [|done]. by rewrite (list_lt_asym _ _ Ha) in Ha. Qed.

Lemma list_lt_app (k1 k2 p1 p2 : list Z) :
  length k1 = length k2 ->
  list_lt (k1 ++ p1) (k2 ++ p2) =
  if decide (k1 = k2) then list_lt p1 p2 else list_lt k1 k2.
Proof.
  revert k2. induction k1 as [|x k1 IH]; intros [|y k2] Hlen; try done.
  injection Hlen as Hlen. cbn [app list_lt]. rewrite (IH k2 Hlen).
  destruct (Z.ltb_spec x y), (Z.ltb_spec y x); try lia.
  - destruct (decide (x :: k1 = y :: k2)) as [[= ? ?]|]; [lia | done].
  - destruct (decide (x :: k1 = y :: k2)) as [[= ? ?]|]; [lia | done].
  - assert (x = y) as -> by lia.
    destruct (decide (k1 = k2)) as [Heq|Hne];
      destruct (decide (y :: k1 = y :: k2)) as [Heq'|Hneq]; try done.
    + by subst.
    + by injection Heq'.
Qed.

Lemma datetime_key_inj (a b : datetime) : datetime_key a = datetime_key b -> a = b.
Proof. destruct a, b. unfold datetime_key. simpl. by intros [= -> -> -> -> -> ->]. Qed.

Lemma candidate_lt_key (a b : datetime * pystr) :
  candidate_lt a b = list_lt (candidate_key a) (candidate_key b).
Proof.
  unfold candidate_lt, candidate_key. rewrite list_lt_app by done.
  destruct (decide (a.1 = b.1)) as [->|Hne].
  - by rewrite decide_True.
  - rewrite decide_False; [done|]. intros Heq. by apply Hne, datetime_key_inj.
Qed.

Lemma candidate_lt_asym (a b : datetime * pystr) :
  candidate_lt a b = true -> candidate_lt b a = false.
Proof. rewrite !candidate_lt_key. apply list_lt_asym. Qed.

Lemma candidate_lt_negtrans (a b c : datetime * pystr) :
  candidate_lt b a = false -> candidate_lt c b = false -> candidate_lt c a = false.
Proof. rewrite !candidate_lt_key. apply list_lt_negtrans. Qed.

(** [<] on the keys of two [datetime]s is the order of the calendar. *)
Lemma datetime_key_le (a b : datetime) :
  list_lt (datetime_key b) (datetime_key a) = false <-> datetime_le a b.
Proof.
  destruct a as [y1 m1 d1 h1 i1 s1], b as [y2 m2 d2 h2 i2 s2].
  unfold datetime_le, datetime_key. cbn.
  repeat match goal with
         | |- context [?x <? ?y] => destruct (Z.ltb_spec x y)
         end; split; intros; try done; try lia.
Qed.

(** A candidate not below another is not earlier than it. *)
Lemma candidate_lt_datetime_le (a b : datetime * pystr) :
  candidate_lt a b = false -> datetime_le b.1 a.1.
Proof.
  intros Hlt. apply datetime_key_le. unfold candidate_lt in Hlt.
  destruct (decide (a.1 = b.1)) as [->|]; [|done]. apply list_lt_irrefl.
Qed.

(** * Properties of the report locator *)

Section Locator.
Context `{PyRuntime}.

Lemma report_candidate_eligible (w : World) (target_period file_path : pystr)
    (c : datetime * pystr) :
  file_path ∈ glob_reports w ->
  report_candidate w target_period file_path = Some c ->
  c.2 = file_path /\ eligible w target_period file_path c.1.
Proof.
  intros Hglob. unfold report_candidate, eligible.
  destruct (robust_file_read w file_path) as [[|ch content]|] eqn:Hread; try done.
  destruct (search cutoff_at (ch :: content)) as [cutoff|] eqn:Hcut; [|done].
  destruct (decide (cutoff = target_period)) as [->|]; [|done].
  destruct (search timestamp_at file_path) as [timestamp_str|] eqn:Hts; [|done].
  simpl. destruct (strptime timestamp_str) as [timestamp|] eqn:Hparse; [|done].
  simpl. intros [= <-]. simpl. split; [done|]. split; [done|].
  exists (ch :: content), timestamp_str. by repeat split.
Qed.

Lemma eligible_report_candidate (w : World) (target_period file_path : pystr)
    (timestamp : datetime) :
  eligible w target_period file_path timestamp ->
  report_candidate w target_period file_path = Some (timestamp, file_path).
Proof.
  intros (_ & content & timestamp_str & Hread & Hne & Hcut & Hts & Hparse).
  unfold report_candidate. rewrite Hread. destruct content as [|ch content]; [done|].
  rewrite Hcut, decide_True by done. rewrite Hts. simpl. by rewrite Hparse.
Qed.

(** C2: when the locator returns a file, the file is eligible for the
    target period (its cutoff marker carries the target period and its name
    ends in a time stamp that parses) and no eligible file has a later time
    stamp; when it returns nothing, no file is eligible.  A file whose name
    has no time stamp that parses is not eligible, whatever its cutoff. *)
Theorem find_matching_report_latest (w : World) (target_period : pystr) :
  match find_matching_report w target_period with
  | Some file_path =>
      exists timestamp,
        eligible w target_period file_path timestamp /\
        forall file_path' timestamp',
          eligible w target_period file_path' timestamp' ->
          datetime_le timestamp' timestamp
  | None => forall file_path timestamp, ~ eligible w target_period file_path timestamp
  end.
Proof.
  unfold find_matching_report.
  set (candidates := omap (report_candidate w target_period) (glob_reports w)).
  assert (Hin : forall c, c ∈ candidates <->
            exists file_path, file_path ∈ glob_reports w /\
              report_candidate w target_period file_path = Some c).
  { intros c. apply list_elem_of_omap. }
  assert (Hall : forall file_path timestamp,
            eligible w target_period file_path timestamp ->
            (timestamp, file_path) ∈ candidates).
  { intros file_path timestamp Hel. apply Hin. exists file_path.
    split; [apply Hel | by apply eligible_report_candidate]. }
  destruct candidates as [|c0 rest] eqn:Hcands.
  - intros file_path timestamp Hel. apply Hall in Hel. by apply not_elem_of_nil in Hel.
  - rewrite <- Hcands in *. clear Hcands.
    destruct (head (sort_reverse candidate_lt candidates)) as [c|] eqn:Hhead.
    + apply sort_reverse_head_max in Hhead as [Hc Hmax];
        [|apply candidate_lt_asym|apply candidate_lt_negtrans].
      apply Hin in Hc as (file_path & Hglob & Hcand).
      destruct (report_candidate_eligible _ _ _ _ Hglob Hcand) as [Hpath Hel].
      simpl. rewrite Hpath. exists c.1. split; [done|].
      intros file_path' timestamp' Hel'.
      apply (candidate_lt_datetime_le c (timestamp', file_path')).
      by apply Hmax, Hall.
    + apply sort_reverse_head_None in Hhead. 
      intros file_path timestamp Hel. apply Hall in Hel. rewrite Hhead in Hel.
      by apply not_elem_of_nil in Hel.
Qed.

End Locator.

(** The locator on the three sample reports: the later of the two dated
    files, whatever the order in which the files are listed. *)
Example find_matching_report_sample :
  find_matching_report LOCATOR_WORLD TARGET_100 = Some REPORT_B /\
  find_matching_report
    {| script_dir := script_dir LOCATOR_WORLD;
       glob_reports := [REPORT_A; REPORT_C; REPORT_B];
       files := files LOCATOR_WORLD; now := now LOCATOR_WORLD |} TARGET_100
    = Some REPORT_B /\
  find_matching_report LOCATOR_WORLD [49; 48; 49] = None.
Proof. by vm_compute. Qed.

(** Witness of C2: the three sample reports, of which the locator returns
    the one dated 20240102_090000. *)
Lemma find_matching_report_latest_witness :
  exists timestamp,
    eligible LOCATOR_WORLD TARGET_100 REPORT_B timestamp /\
    forall file_path' timestamp',
      eligible LOCATOR_WORLD TARGET_100 file_path' timestamp' ->
      datetime_le timestamp' timestamp.
Proof.
  pose proof (find_matching_report_latest LOCATOR_WORLD TARGET_100) as Hlatest.
  replace (find_matching_report LOCATOR_WORLD TARGET_100) with (Some REPORT_B)
    in Hlatest by (by vm_compute).
  exact Hlatest.
Defined.

(** * Properties of the report writer *)

Lemma join_lines (lines : list pystr) :
  lines <> [] -> join [10] lines ++ [10] = concat (line <$> lines).
Proof.
  induction lines as [|l [|l' rest] IH]; intros Hne; [done| |].
  - simpl. by rewrite app_nil_r.
  - change (join [10] (l :: l' :: rest)) with (l ++ [10] ++ join [10] (l' :: rest)).
    rewrite fmap_cons, concat_cons, <- IH by done. unfold line.
    by rewrite <- !app_assoc.
Qed.

Lemma entry_lines_block (e : ReportEntry) :
  concat (line <$> entry_lines e) = outcome_block e.
Proof.
  unfold entry_lines, outcome_block.
  rewrite !fmap_app, !concat_app, !fmap_cons, !concat_cons, !fmap_nil, !concat_nil.
  by rewrite !app_nil_r, <- !app_assoc.
Qed.

Lemma error_lines_block (time message : pystr) :
  concat (line <$> error_lines time message) = error_block time message.
Proof.
  unfold error_lines, error_block.
  rewrite !fmap_cons, !concat_cons, !fmap_nil, !concat_nil.
  by rewrite !app_nil_r.
Qed.

(** What [manage_report] writes, whatever it is given: the blocks of the
    records it was given, then the previous content.  An error message that
    is the empty string contributes no block. *)
Lemma manage_report_writes (new_entry : option ReportEntry)
    (new_error : option pystr) (w : World) :
  manage_report new_entry new_error w =
  with_log w
    (from_option outcome_block [] new_entry ++
     match new_error with
     | Some (c :: message) => error_block (now w) (c :: message)
     | _ => []
     end ++ persisted_log w).
Proof.
  unfold manage_report, with_log, persisted_log. f_equal.
  set (existing := default [] (robust_file_read w (report_path w))).
  destruct (new_content_lines (now w) new_entry new_error) as [|l lines] eqn:Hlines.
  - unfold new_content_lines in Hlines.
    destruct new_entry as [e|]; [done|].
    by destruct new_error as [[|c message]|].
  - rewrite <- Hlines.
    rewrite (app_assoc (join _ _)), (app_assoc (from_option _ _ _)). f_equal.
    rewrite join_lines by (by rewrite Hlines).
    unfold new_content_lines. rewrite fmap_app, concat_app. f_equal.
    + destruct new_entry as [e|]; [apply entry_lines_block | done].
    + destruct new_error as [[|c message]|]; [done | apply error_lines_block | done].
Qed.

Lemma persisted_log_with_log (w : World) (content : pystr) :
  persisted_log (with_log w content) = content.
Proof.
  unfold persisted_log, with_log, write_file, robust_file_read, report_path. simpl.
  by rewrite lookup_insert_eq.
Qed.



(** C10: called with neither an outcome record nor an error record, the
    writer leaves a log that exists as it is: the world is unchanged, and the
    file read back holds its previous content. *)
Theorem manage_report_nothing_new (w : World) (content : pystr) :
  robust_file_read w (report_path w) = Some content ->
  manage_report None None w = w /\
  robust_file_read (manage_report None None w) (report_path w) = Some content.
Proof.
  intros Hread.
  assert (Hsame : manage_report None None w = w).
  { rewrite manage_report_writes. simpl. unfold persisted_log. rewrite Hread. simpl.
    unfold with_log, write_file. unfold robust_file_read in Hread.
    rewrite insert_id by done. by destruct w. }
  by rewrite Hsame.
Qed.

(** With no record given and no log file yet, the log is created empty: read
    as the writer reads it, its content is unchanged. *)
Lemma manage_report_nothing_new_log (w : World) :
  persisted_log (manage_report None None w) = persisted_log w.
Proof. rewrite manage_report_writes. simpl. apply persisted_log_with_log. Qed.

(** No record is ever dropped: after any number of outcome records, the log
    holds the block of every one of them, the newest first, followed by what
    it held before. *)
Lemma insert_outcomes_log (entries : list ReportEntry) (w : World) :
  persisted_log (insert_outcomes w entries) =
  concat (outcome_block <$> reverse entries) ++ persisted_log w.
Proof.
  revert w. induction entries as [|e entries IH]; intros w; [done|].
  unfold insert_outcomes in *. cbn [foldl]. rewrite IH, manage_report_writes.
  rewrite persisted_log_with_log, reverse_cons, fmap_app, concat_app.
  cbn [from_option fmap list_fmap concat app].
  by rewrite !app_nil_r, <- app_assoc.
Qed.

Lemma insert_errors_log (messages : list pystr) (w : World) :
  Forall (fun m => m <> []) messages ->
  persisted_log (insert_errors w messages) =
  concat (error_block (now w) <$> reverse messages) ++ persisted_log w.
Proof.
  intros Hne. revert w. induction Hne as [|m messages Hm _ IH]; intros w; [done|].
  destruct m as [|c m]; [done|].
  unfold insert_errors in *. cbn [foldl]. rewrite IH, manage_report_writes.
  rewrite persisted_log_with_log, reverse_cons, fmap_app, concat_app.
  cbn [from_option fmap list_fmap concat app].
  by rewrite !app_nil_r, <- app_assoc.
Qed.


(** C3, at the failing input: after eleven outcome records, one more than
    [MAX_NORMAL_RECORDS], the log holds eleven blocks; the newest is its
    first block, and the oldest, which the retention limit would discard, is
    still its last. *)
Theorem manage_report_keeps_eleven_outcomes :
  let content := persisted_log (insert_outcomes empty_world eleven_entries) in
  count_blocks content = 11%nat /\
  (MAX_NORMAL_RECORDS < count_blocks content)%nat /\
  outcome_block (sample_entry 11) `prefix_of` content /\
  outcome_block (sample_entry 1) `suffix_of` content.
Proof.
  cbv zeta. rewrite insert_outcomes_log.
  split; [by vm_compute|]. split; [vm_compute; lia|].
  split; compute_done.
Qed.


(** Witness of C10: a log that already holds one block. *)
Lemma manage_report_nothing_new_witness :
  manage_report None None (with_log empty_world (outcome_block (sample_entry 1))) =
  with_log empty_world (outcome_block (sample_entry 1)).
Proof.
  refine (proj1 (manage_report_nothing_new
                   (with_log empty_world (outcome_block (sample_entry 1)))
                   (outcome_block (sample_entry 1)) _)).
  reflexivity.
Defined.

(** * Properties of the draw history store *)

Lemma expect_Some (lit s rest : pystr) : expect lit s = Some rest -> s = lit ++ rest.
Proof.
  revert s. induction lit as [|c lit IH]; intros s; simpl.
  - by intros [= ->].
  - destruct s as [|c' s]; [done|]. destruct (decide (c = c')) as [->|]; [|done].
    intros Hrest. by rewrite (IH _ Hrest).
Qed.

Lemma span_app (p : Z -> bool) (s : pystr) : (span p s).1 ++ (span p s).2 = s.
Proof.
  induction s as [|c s IH]; [done|]. simpl.
  destruct (p c); [|done]. destruct (span p s). simpl in *. by rewrite IH.
Qed.

Lemma span_Forall (p : Z -> bool) (s : pystr) :
  Forall (fun c => p c = true) (span p s).1.
Proof.
  induction s as [|c s IH]; [constructor|]. simpl.
  destruct (p c) eqn:Hc; [|constructor]. destruct (span p s). by constructor.
Qed.

Section DrawStore.
Context `{PyRuntime}.

Lemma digits_decimal (run : pystr) :
  Forall (fun c => is_digit c = true) run ->
  exists ds, mapM py_decimal run = Some ds.
Proof.
  induction 1 as [|c run Hc _ [ds IH]]; [by exists []|].
  unfold is_digit in Hc. destruct (py_decimal c) as [d|] eqn:Hd; [|done].
  exists (d :: ds). apply mapM_Some. constructor; [done|]. by apply mapM_Some.
Qed.

Lemma mapM_omap {A B} (f : A -> option B) (l : list A) (k : list B) :
  mapM f l = Some k -> omap f l = k.
Proof.
  intros Hk%mapM_Some. induction Hk as [|x y l k Hxy _ IH]; [done|].
  change (omap f (x :: l)) with
    (match f x with Some y => y :: omap f l | None => omap f l end).
  by rewrite Hxy, IH.
Qed.

(** [int] reads every string the period pattern accepts, as the value of
    its digits. *)
Lemma match_period_code_int (s : pystr) :
  match_period_code s = true -> py_int s = Some (period_value s).
Proof.
  unfold match_period_code, period_value.
  pose proof (span_app is_digit s) as Happ.
  pose proof (span_Forall is_digit s) as Hrun.
  destruct (span is_digit s) as [run rest]. simpl in *.
  intros [Hlen Hend]%andb_prop. apply bool_decide_eq_true in Hlen.
  destruct (digits_decimal run Hrun) as [ds Hds].
  assert (Hint : py_int run = Some (of_digits ds)).
  { apply py_int_digits; [by destruct run; simpl in *; [lia|] | lia | done]. }
  apply mapM_omap in Hds.
  unfold at_end in Hend. apply orb_prop in Hend as [Hend|Hend];
    apply bool_decide_eq_true in Hend; subst rest s.
  - by rewrite app_nil_r, Hds.
  - rewrite py_int_trailing_newline, omap_app, Hds. simpl.
    by rewrite (py_space_not_decimal 10 py_isspace_newline), app_nil_r.
Qed.

Lemma process_row_valid (acc : gmap pystr (list Z) * list pystr) (row : list pystr) :
  process_row acc row =
  match valid_record row with
  | Some (period, digits) => (<[period := digits]> acc.1, acc.2 ++ [period])
  | None => acc
  end.
Proof.
  unfold process_row, valid_record.
  destruct row as [|period [|f1 [|f2 [|f3 rest]]]]; try done.
  destruct (match_period_code period); [|done].
  destruct (py_int f1) as [d1|]; [|done]. destruct (py_int f2) as [d2|]; [|done].
  destruct (py_int f3) as [d3|]; [|done]. simpl.
  destruct (Z.leb_spec 0 d1), (Z.leb_spec d1 9), (Z.leb_spec 0 d2),
    (Z.leb_spec d2 9), (Z.leb_spec 0 d3), (Z.leb_spec d3 9); simpl;
    first [ by rewrite bool_decide_eq_true_2 by lia
          | by rewrite bool_decide_eq_false_2 by lia ].
Qed.

Lemma process_rows_valid (rows : list (list pystr)) (acc : gmap pystr (list Z) * list pystr) :
  foldl process_row acc rows =
  (insert_records acc.1 (omap valid_record rows),
   acc.2 ++ (omap valid_record rows).*1).
Proof.
  revert acc. induction rows as [|row rows IH]; intros [m l]; simpl.
  - by rewrite app_nil_r.
  - rewrite IH, process_row_valid.
    destruct (valid_record row) as [[period digits]|]; simpl; [|done].
    by rewrite <- app_assoc.
Qed.

Lemma insert_records_not_in (records : list (pystr * list Z)) (m : gmap pystr (list Z))
    (p : pystr) :
  p ∉ records.*1 -> insert_records m records !! p = m !! p.
Proof.
  revert m. induction records as [|[q ds] records IH]; intros m Hp; [done|].
  simpl in *. apply not_elem_of_cons in Hp as [Hne Hp].
  rewrite IH by done. by rewrite lookup_insert_ne.
Qed.

(** Last write wins. *)
Lemma insert_records_last (l1 l2 : list (pystr * list Z)) (m : gmap pystr (list Z))
    (p : pystr) (ds : list Z) :
  p ∉ l2.*1 -> insert_records m (l1 ++ (p, ds) :: l2) !! p = Some ds.
Proof.
  intros Hp. unfold insert_records. rewrite foldl_app. simpl.
  fold (insert_records (<[p:=ds]> (foldl (fun m r => <[r.1:=r.2]> m) m l1)) l2).
  rewrite insert_records_not_in by done. apply lookup_insert_eq.
Qed.

Lemma mapM_int_key_cons (p : pystr) (l : list pystr) :
  mapM int_key (p :: l) =
  match py_int p with
  | Some k => match mapM int_key l with
              | inr keyed => inr ((k, p) :: keyed)
              | inl e => inl e
              end
  | None => inl (ValueError p)
  end.
Proof.
  cbn [mapM]. set (rest := mapM int_key l). unfold int_key.
  destruct (py_int p); [|done]. by destruct rest.
Qed.

Lemma mapM_int_key (l : list pystr) (keyed : list (Z * pystr)) :
  mapM int_key l = inr keyed ->
  keyed.*2 = l /\ Forall (fun kp => py_int kp.2 = Some kp.1) keyed.
Proof.
  revert keyed. induction l as [|p l IH]; intros keyed.
  - intros [= <-]. by split.
  - rewrite mapM_int_key_cons. destruct (py_int p) as [k|] eqn:Hk; [|done].
    destruct (mapM int_key l) as [e|keyed'] eqn:Hrest; [done|].
    intros [= <-]. destruct (IH keyed' eq_refl) as [<- Hall].
    split; [done|]. by constructor.
Qed.

Lemma mapM_int_key_total (l : list pystr) :
  Forall (fun p => is_Some (py_int p)) l -> exists keyed, mapM int_key l = inr keyed.
Proof.
  induction 1 as [|p l [k Hk] _ [keyed IH]]; [by exists []|].
  exists ((k, p) :: keyed). by rewrite mapM_int_key_cons, Hk, IH.
Qed.

(** [sorted(periods_list, key=int)]: the same periods, their integer values
    in ascending order. *)
Lemma sorted_by_int_sorted (periods_list periods : list pystr) :
  sorted_by_int periods_list = inr periods ->
  periods ≡ₚ periods_list /\
  exists keys, Forall2 (fun p k => py_int p = Some k) periods keys /\
               StronglySorted Z.le keys.
Proof.
  unfold sorted_by_int. destruct (mapM int_key periods_list) as [e|keyed] eqn:Hkeyed;
    [done|]. simpl. intros [= <-].
  destruct (mapM_int_key _ _ Hkeyed) as [<- Hall].
  set (lt := fun a b : Z * pystr => a.1 <? b.1).
  pose proof (stable_sort_perm lt keyed) as Hperm.
  assert (Hsorted : StronglySorted (fun x y => lt y x = false) (stable_sort lt keyed)).
  { apply stable_sort_sorted; unfold lt; intros; lia. }
  split; [by rewrite Hperm|].
  exists ((stable_sort lt keyed).*1). split.
  - rewrite <- Hperm in Hall. clear -Hall.
    induction Hall as [|[k p] l Hkp _ IH]; simpl; constructor; done.
  - clear -Hsorted. induction Hsorted as [|[k p] l _ IH Hall]; simpl; constructor.
    + done.
    + rewrite Forall_fmap. eapply Forall_impl; [exact Hall|].
      intros [k' p'] Hk. unfold lt in Hk. simpl in *. lia.
Qed.

Lemma valid_record_period (row : list pystr) (period : pystr) (digits : list Z) :
  valid_record row = Some (period, digits) ->
  match_period_code period = true /\ is_ticket digits.
Proof.
  unfold valid_record.
  destruct row as [|p [|f1 [|f2 [|f3 rest]]]]; try done.
  destruct (match_period_code p) eqn:Hp; [|done].
  destruct (py_int f1) as [d1|]; [|done]. destruct (py_int f2) as [d2|]; [|done].
  destruct (py_int f3) as [d3|]; [|done]. simpl.
  case_bool_decide as Hrange; [|done]. intros [= <- <-].
  split; [done|]. split; [done|]. repeat constructor; lia.
Qed.

(** What a successful parse returns: a period list that is a sorted
    arrangement of the periods of the valid records, one entry for each, and
    the map the valid records build when inserted in file order. *)
Lemma get_period_data_from_csv_Some (csv_content : pystr)
    (period_map : gmap pystr (list Z)) (periods : list pystr) :
  get_period_data_from_csv csv_content = inr (Some (period_map, periods)) ->
  let records := valid_records csv_content in
  period_map = insert_records ∅ records /\
  sorted_by_int records.*1 = inr periods /\ records <> [].
Proof.
  unfold get_period_data_from_csv, valid_records.
  destruct csv_content as [|c content]; [done|].
  destruct (csv_rows (c :: content)) as [[|header rows]|]; try done.
  rewrite process_rows_valid. cbn [fst snd app].
  destruct (decide (insert_records ∅ (omap valid_record rows) = ∅)) as [|Hne]; [done|].
  destruct (sorted_by_int (omap valid_record rows).*1) as [e|l] eqn:Hsorted; [done|].
  simpl. intros [= <- <-]. split; [done|]. split; [done|].
  intros Hnil. by rewrite Hnil in Hne.
Qed.

(** The parse never raises: every period it collected passes [int]. *)
Lemma get_period_data_from_csv_no_exception (csv_content : pystr) :
  exists result, get_period_data_from_csv csv_content = inr result.
Proof.
  unfold get_period_data_from_csv.
  destruct csv_content as [|c content]; [by eexists|].
  destruct (csv_rows (c :: content)) as [[|header rows]|]; try by eexists.
  rewrite process_rows_valid. cbn [fst snd app].
  destruct (decide (insert_records ∅ (omap valid_record rows) = ∅)); [by eexists|].
  destruct (mapM_int_key_total (omap valid_record rows).*1) as [keyed Hkeyed].
  { rewrite Forall_fmap, Forall_forall. intros [period digits] Hin.
    apply list_elem_of_omap in Hin as (row & _ & Hrow).
    apply valid_record_period in Hrow as [Hperiod _].
    simpl. by rewrite (match_period_code_int _ Hperiod). }
  unfold sorted_by_int. rewrite Hkeyed. by eexists.
Qed.

(** Every period a successful parse lists is read by [int] as the value of
    its digits. *)
Lemma get_period_data_from_csv_values (csv_content : pystr)
    (period_map : gmap pystr (list Z)) (periods : list pystr) :
  get_period_data_from_csv csv_content = inr (Some (period_map, periods)) ->
  Forall (fun p => py_int p = Some (period_value p)) periods.
Proof.
  intros Hparse. apply get_period_data_from_csv_Some in Hparse as (_ & Hsorted & _).
  apply sorted_by_int_sorted in Hsorted as [Hperm _]. rewrite Hperm.
  rewrite Forall_fmap, Forall_forall. intros [period digits] Hin. simpl.
  unfold valid_records in Hin. destruct csv_content as [|c content];
    [by apply not_elem_of_nil in Hin|].
  destruct (csv_rows (c :: content)) as [[|header rows]|];
    try (by apply not_elem_of_nil in Hin).
  apply list_elem_of_omap in Hin as (row & _ & Hrow).
  apply valid_record_period in Hrow as [Hperiod _].
  by apply match_period_code_int.
Qed.

(** The parse returns a result on every input: no exception leaves it. *)
Theorem get_period_data_from_csv_never_raises (csv_content : pystr) :
  exists result, get_period_data_from_csv csv_content = inr result.
Proof. apply get_period_data_from_csv_no_exception. Qed.

(** C5: the period list of a successful parse is in ascending order of the
    numeric values of its period codes, which are the keys [int] gives the
    sort; and that order puts "99" before "100", where the order of the
    strings puts "100" first. *)
Theorem periods_sorted_by_numeric_value (csv_content : pystr)
    (period_map : gmap pystr (list Z)) (periods : list pystr) :
  get_period_data_from_csv csv_content = inr (Some (period_map, periods)) ->
  StronglySorted Z.le (period_value <$> periods) /\
  Forall (fun p => py_int p = Some (period_value p)) periods /\
  sorted_by_int [P100; P99] = inr [P99; P100] /\
  list_lt P100 P99 = true.
Proof.
  intros Hparse.
  pose proof (get_period_data_from_csv_values _ _ _ Hparse) as Hvalues.
  split; [|split; [done|split; [|reflexivity]]].
  - apply get_period_data_from_csv_Some in Hparse as (_ & Hsorted & _).
    apply sorted_by_int_sorted in Hsorted as (_ & keys & Hkeys & Hsorted).
    assert (period_value <$> periods = keys) as ->; [|done].
    clear -Hkeys Hvalues. induction Hkeys as [|p k periods keys Hpk _ IH]; [done|].
    inversion Hvalues as [|? ? Hp Hrest]; subst.
    rewrite fmap_cons, (IH Hrest). f_equal. congruence.
  - assert (H99 : py_int P99 = Some 99).
    { apply (py_int_digits P99 [9; 9]); [done | simpl; lia |].
      apply mapM_Some. repeat constructor; by rewrite py_decimal_ascii. }
    assert (H100 : py_int P100 = Some 100).
    { apply (py_int_digits P100 [1; 0; 0]); [done | simpl; lia |].
      apply mapM_Some. repeat constructor; by rewrite py_decimal_ascii. }
    unfold sorted_by_int. simpl. unfold int_key. rewrite H99, H100. reflexivity.
Qed.

(** C4, as amended: the period list of a successful parse holds one entry
    for every valid row of the dataset, so that a period carried by several
    valid rows is listed as many times; the period map gives every period the
    digits of the last valid row that carries it, and holds no other period. *)
Theorem periods_one_entry_per_valid_row (csv_content : pystr)
    (period_map : gmap pystr (list Z)) (periods : list pystr) :
  get_period_data_from_csv csv_content = inr (Some (period_map, periods)) ->
  let records := valid_records csv_content in
  periods ≡ₚ records.*1 /\
  (forall earlier later period digits,
      records = earlier ++ (period, digits) :: later ->
      period ∉ later.*1 -> period_map !! period = Some digits) /\
  (forall period, period ∉ records.*1 -> period_map !! period = None).
Proof.
  intros Hparse. apply get_period_data_from_csv_Some in Hparse as (-> & Hsorted & _).
  apply sorted_by_int_sorted in Hsorted as [Hperm _].
  split; [done|]. split.
  - intros earlier later period digits Hsplit Hlast. rewrite Hsplit.
    by apply insert_records_last.
  - intros period Hnot. by rewrite insert_records_not_in.
Qed.

(** A dataset that is not empty and holds no valid record parses to the
    failure value. *)
Lemma get_period_data_from_csv_no_records (csv_content : pystr) :
  csv_content <> [] -> valid_records csv_content = [] ->
  get_period_data_from_csv csv_content = inr None.
Proof.
  intros Hne Hnone. unfold get_period_data_from_csv, valid_records in *.
  destruct csv_content as [|c content]; [done|].
  destruct (csv_rows (c :: content)) as [[|header rows]|]; try done.
  rewrite process_rows_valid, Hnone. reflexivity.
Qed.

(** C9, as amended: the empty dataset and a dataset without a valid record
    both parse to the failure value [(None, None)]; the result does not tell
    the two apart. *)
Theorem get_period_data_from_csv_failures :
  get_period_data_from_csv [] = inr None /\
  forall csv_content, csv_content <> [] -> valid_records csv_content = [] ->
    get_period_data_from_csv csv_content = inr None.
Proof. split; [reflexivity | apply get_period_data_from_csv_no_records]. Qed.

End DrawStore.

(** Counterexample to C4 as stated: on a dataset with two valid rows for
    period 2024002 the period list holds that period twice. *)
Lemma periods_with_duplicates :
  get_period_data_from_csv SAMPLE_CSV = inr (Some (SAMPLE_MAP, SAMPLE_PERIODS)) /\
  ~ NoDup SAMPLE_PERIODS.
Proof.
  split; [by vm_compute|].
  intros Hnodup. apply NoDup_ListNoDup in Hnodup.
  do 3 apply NoDup_cons_iff in Hnodup as [_ Hnodup].
  apply NoDup_cons_iff in Hnodup as [Hnot _]. apply Hnot. by left.
Qed.

(** Counterexample to C9 as stated: the empty dataset and a dataset that is
    not empty and has no valid row give the same result. *)
Lemma get_period_data_from_csv_same_failure :
  NO_VALID_ROW_CSV <> [] /\
  get_period_data_from_csv [] = get_period_data_from_csv NO_VALID_ROW_CSV.
Proof. split; [done | by vm_compute]. Qed.

(** Witness of C5: the sample dataset, with period codes of 4, 5 and 7
    digits. *)
Lemma periods_sorted_by_numeric_value_witness :
  StronglySorted Z.le (period_value <$> SAMPLE_PERIODS) /\
  Forall (fun p => py_int p = Some (period_value p)) SAMPLE_PERIODS /\
  sorted_by_int [P100; P99] = inr [P99; P100] /\
  list_lt P100 P99 = true.
Proof.
  refine (periods_sorted_by_numeric_value SAMPLE_CSV SAMPLE_MAP SAMPLE_PERIODS _).
  by vm_compute.
Defined.

(** Witness of C4: the sample dataset, with two valid rows for one period. *)
Lemma periods_one_entry_per_valid_row_witness :
  SAMPLE_PERIODS ≡ₚ (valid_records SAMPLE_CSV).*1.
Proof.
  refine (proj1 (periods_one_entry_per_valid_row SAMPLE_CSV SAMPLE_MAP
                   SAMPLE_PERIODS _)).
  by vm_compute.
Defined.

(** Witness of C9: a dataset of three rows, none of them valid. *)
Lemma get_period_data_from_csv_failures_witness :
  get_period_data_from_csv NO_VALID_ROW_CSV = inr None.
Proof.
  refine (proj2 get_period_data_from_csv_failures NO_VALID_ROW_CSV _ _).
  - done.
  - by vm_compute.
Defined.

(** * Properties of the ticket extractor *)

Lemma foldl_append_omap {A B} (f : A -> option B) (g : list B -> A -> list B)
    (l : list A) (acc : list B) :
  (forall acc x, g acc x = match f x with Some y => acc ++ [y] | None => acc end) ->
  foldl g acc l = acc ++ omap f l.
Proof.
  intros Hg. revert acc. induction l as [|x l IH]; intros acc; simpl.
  - by rewrite app_nil_r.
  - rewrite IH, Hg. destruct (f x); [|done]. by rewrite <- app_assoc.
Qed.


Section Extractor.
Context `{PyRuntime}.


(** A digit character is read back as its value. *)
Lemma int_strip_digit (c d : Z) :
  py_decimal c = Some d -> py_int (strip [c]) = Some d.
Proof.
  intros Hd. unfold strip. rewrite strip_with_no_space.
  - assert (Hint : py_int [c] = Some (of_digits [d])).
    { apply py_int_digits; [done | simpl; lia | simpl; by rewrite Hd]. }
    rewrite Hint. unfold of_digits. simpl. f_equal; lia.
  - constructor; [|done]. destruct (py_isspace c) eqn:Hc; [|done].
    apply py_space_not_decimal in Hc. congruence.
Qed.

Lemma bracket_numbers_digits (group : pystr) :
  bracket_numbers group = Some (bracket_digits group).
Proof.
  unfold bracket_numbers, bracket_digits. apply mapM_Some.
  induction group as [|c group IH]; [constructor|].
  rewrite filter_cons. cbn [omap list_omap].
  destruct (decide (is_digit c = true)) as [Hc|Hc]; unfold is_digit in Hc;
    destruct (py_decimal c) as [d|] eqn:Hd; try done.
  constructor; [by apply int_strip_digit | done].
Qed.

Lemma bracket_digits_range (group : pystr) :
  Forall (fun d => 0 <= d <= 9) (bracket_digits group).
Proof.
  apply Forall_forall. intros d (c & _ & Hc)%list_elem_of_omap.
  by apply py_decimal_range in Hc.
Qed.

Lemma all_digits_true (numbers : list Z) :
  Forall (fun d => 0 <= d <= 9) numbers -> all_digits numbers = true.
Proof.
  unfold all_digits. induction 1 as [|d l Hd _ IH]; [done|]. simpl.
  rewrite IH, andb_true_r. apply andb_true_intro. split; lia.
Qed.

(** A character that is no digit only separates. *)
Lemma bracket_digits_separator (before after : pystr) (c : Z) :
  is_digit c = false ->
  bracket_digits (before ++ c :: after) = bracket_digits (before ++ after).
Proof.
  unfold bracket_digits, is_digit. intros Hc. rewrite !omap_app. simpl.
  by destruct (py_decimal c).
Qed.

(** The extractor keeps, in order, the ticket of every bracket that has one. *)
Lemma parse_recommendations_omap (content : pystr) :
  parse_recommendations_from_report content =
  omap bracket_ticket (finditer ticket_at content).
Proof.
  unfold parse_recommendations_from_report.
  rewrite (foldl_append_omap bracket_ticket); [done|]. intros acc group.
  rewrite bracket_numbers_digits. unfold bracket_ticket.
  rewrite all_digits_true by apply bracket_digits_range. rewrite andb_true_r.
  by destruct (decide (length (bracket_digits group) = 3%nat)) as [Hlen|Hlen];
    [rewrite bool_decide_eq_true_2 | rewrite bool_decide_eq_false_2].
Qed.

Lemma parse_recommendations_is_ticket (content : pystr) :
  Forall is_ticket (parse_recommendations_from_report content).
Proof.
  rewrite parse_recommendations_omap. apply Forall_forall.
  intros ticket (group & _ & Hticket)%list_elem_of_omap.
  unfold bracket_ticket in Hticket.
  destruct (decide (length (bracket_digits group) = 3%nat)) as [Hlen|]; [|done].
  injection Hticket as <-. split; [done | apply bracket_digits_range].
Qed.


End Extractor.

(** The tickets of the sample report: the fourth and fifth segments hold
    four and two digits and are dropped; the last one spans two lines. *)
Example parse_sample_report :
  parse_recommendations_from_report SAMPLE_REPORT = [[1; 2; 3]; [4; 6; 5]; [9; 9; 9]].
Proof. by vm_compute. Qed.


(** * Properties of the orchestrator *)

Lemma exn_bind_inr {A B} (f : A -> Exn + B) (x : A) : (inr x ≫= f) = f x.
Proof. reflexivity. Qed.

Lemma three_digits_text (l : list Z) :
  length l = 3%nat -> three_digits l = inr (digits_text l).
Proof.
  destruct l as [|a [|b [|c [|]]]]; try done. intros _.
  unfold three_digits, digits_text. cbn. by rewrite app_nil_r.
Qed.

Lemma format_detail_line (d : WinningDetail) :
  length (numbers d) = 3%nat -> format_detail d = inr (detail_line d).
Proof.
  intros Hlen. unfold format_detail, detail_line.
  by rewrite three_digits_text, exn_bind_inr.
Qed.

Lemma mapM_format_detail (details : list WinningDetail) :
  Forall (fun d => length (numbers d) = 3%nat) details ->
  mapM format_detail details = inr (detail_line <$> details).
Proof.
  induction 1 as [|d details Hd _ IH]; [done|].
  cbn [mapM]. by rewrite format_detail_line, exn_bind_inr, IH.
Qed.

Lemma format_winning_details_lines (details : list WinningDetail) (draw : list Z) :
  Forall (fun d => length (numbers d) = 3%nat) details -> length draw = 3%nat ->
  format_winning_details details draw = inr (winning_lines details draw).
Proof.
  intros Hdetails Hdraw. unfold format_winning_details, winning_lines.
  destruct details as [|d details]; [done|].
  by rewrite three_digits_text, exn_bind_inr, mapM_format_detail.
Qed.

Lemma spec_details_numbers (draw : list Z) (tickets : list (list Z)) (i : Z) :
  Forall (fun t => length t = 3%nat) tickets ->
  Forall (fun d => length (numbers d) = 3%nat) (spec_details draw i tickets).
Proof.
  intros Htickets. revert i. induction Htickets as [|t tickets Ht _ IH]; intros i;
    [constructor|].
  simpl. apply Forall_app. split; [|apply IH].
  unfold spec_detail. destruct (spec_tier t draw); repeat constructor; done.
Qed.

Lemma index_last {A} (l : list A) (x y : A) :
  index (l ++ [x; y]) (length (l ++ [x; y]) - 1) = inr y /\
  index (l ++ [x; y]) (length (l ++ [x; y]) - 2) = inr x.
Proof.
  unfold index. rewrite length_app. simpl.
  replace (length l + 2 - 1)%nat with (length l + 1)%nat by lia.
  replace (length l + 2 - 2)%nat with (length l + 0)%nat by lia.
  rewrite !lookup_app_r by lia.
  replace (length l + 1 - length l)%nat with 1%nat by lia.
  by replace (length l + 0 - length l)%nat with 0%nat by lia.
Qed.

Lemma two_last {A} (l : list A) :
  (2 <= length l)%nat -> exists earlier x y, l = earlier ++ [x; y].
Proof.
  destruct l as [|y l _] using rev_ind; [simpl; lia|].
  destruct l as [|x l _] using rev_ind; [simpl; lia|].
  intros _. exists l, x, y. by rewrite <- app_assoc.
Qed.

Section Orchestrator.
Context `{PyRuntime}.

Lemma insert_records_lookup_in (records : list (pystr * list Z))
    (m : gmap pystr (list Z)) (p : pystr) :
  p ∈ records.*1 ->
  exists ds, insert_records m records !! p = Some ds /\ (p, ds) ∈ records.
Proof.
  revert m. induction records as [|[q d] records IH]; intros m Hp.
  - by apply not_elem_of_nil in Hp.
  - destruct (decide (p ∈ records.*1)) as [Hin|Hnin].
    + destruct (IH (<[q := d]> m) Hin) as (ds & Hds & Hmem).
      exists ds. split; [done | by right].
    + rewrite fmap_cons in Hp. apply elem_of_cons in Hp as [->|Hp]; [|done].
      exists d. split; [|by left].
      unfold insert_records. simpl.
      fold (insert_records (<[q := d]> m) records).
      rewrite insert_records_not_in by done. apply lookup_insert_eq.
Qed.

Lemma valid_records_ticket (csv_content period : pystr) (digits : list Z) :
  (period, digits) ∈ valid_records csv_content -> is_ticket digits.
Proof.
  unfold valid_records. destruct csv_content as [|c content];
    [by intros ?%not_elem_of_nil|].
  destruct (csv_rows (c :: content)) as [[|header rows]|];
    try (by intros ?%not_elem_of_nil).
  intros (row & _ & Hrow)%list_elem_of_omap.
  by apply valid_record_period in Hrow as [_ Hticket].
Qed.

(** A successful parse lists at least one period, and maps every period it
    lists to a draw. *)
Lemma get_period_data_from_csv_draws (csv_content : pystr)
    (period_map : gmap pystr (list Z)) (periods : list pystr) :
  get_period_data_from_csv csv_content = inr (Some (period_map, periods)) ->
  period_map <> ∅ /\ periods <> [] /\
  forall period, period ∈ periods ->
    exists draw, period_map !! period = Some draw /\ is_ticket draw.
Proof.
  intros Hparse.
  apply get_period_data_from_csv_Some in Hparse as (-> & Hsorted & Hne).
  apply sorted_by_int_sorted in Hsorted as [Hperm _].
  assert (Hdraws : forall period, period ∈ (valid_records csv_content).*1 ->
            exists draw, insert_records ∅ (valid_records csv_content) !! period
                         = Some draw /\ is_ticket draw).
  { intros period Hin.
    destruct (insert_records_lookup_in _ ∅ _ Hin) as (ds & Hds & Hmem).
    exists ds. split; [done|]. by eapply valid_records_ticket. }
  destruct (valid_records csv_content) as [|[p d] records] eqn:Hrecords; [done|].
  split; [|split].
  - destruct (Hdraws p) as (draw & Hdraw & _); [rewrite fmap_cons; by left|].
    intros Hempty. by rewrite Hempty, lookup_empty in Hdraw.
  - intros ->. by apply Permutation_nil_l in Hperm.
  - intros period Hin. apply Hdraws. by rewrite <- Hperm.
Qed.

Lemma get_period_data_from_csv_None (csv_content : pystr) :
  get_period_data_from_csv csv_content = inr None -> valid_records csv_content = [].
Proof.
  unfold get_period_data_from_csv, valid_records.
  destruct csv_content as [|c content]; [done|].
  destruct (csv_rows (c :: content)) as [[|header rows]|]; try done.
  rewrite process_rows_valid. cbn [fst snd app].
  destruct (decide (insert_records ∅ (omap valid_record rows) = ∅)) as [Hempty|]; [|].
  - intros _. destruct (omap valid_record rows) as [|[p d] records] eqn:Hrecords; [done|].
    destruct (insert_records_lookup_in ((p, d) :: records) ∅ p) as (ds & Hds & _);
      [rewrite fmap_cons; by left|].
    by rewrite Hempty, lookup_empty in Hds.
  - by destruct (sorted_by_int (omap valid_record rows).*1).
Qed.

Lemma calculate_prize_numbers (tickets : list (list Z)) (draw : list Z) :
  Forall is_ticket tickets ->
  Forall (fun d => length (numbers d) = 3%nat)
    (winning_details (calculate_prize tickets draw)).
Proof.
  intros Htickets.
  assert (Hlen : Forall (fun t => length t = 3%nat) tickets).
  { eapply Forall_impl; [exact Htickets|]. by intros t [? _]. }
  unfold calculate_prize. rewrite calculate_prize_loop_details by done.
  by apply spec_details_numbers.
Qed.

(** The writer, given the outcome record of a run. *)
Lemma main_try_success (w : World) (eval_period : pystr) (draw : list Z)
    (tickets : list (list Z)) :
  Forall is_ticket tickets -> is_ticket draw ->
  (winning_details_formatted ←
     format_winning_details (winning_details (calculate_prize tickets draw)) draw;
   prize_numbers_str ← three_digits draw;
   mret (manage_report
     (Some {| entry_timestamp := now w;
              entry_period := eval_period;
              entry_prize_numbers := prize_numbers_str;
              entry_total_recommendations := Z.of_nat (length tickets);
              entry_winning_count :=
                Z.of_nat (length (winning_details (calculate_prize tickets draw)));
              entry_total_prize := total_prize (calculate_prize tickets draw);
              entry_winning_details := winning_details_formatted |}) None w))
  = inr (with_log w (outcome_block (outcome_entry w eval_period draw tickets)
                     ++ persisted_log w)).
Proof.
  intros Htickets [Hdraw _].
  rewrite format_winning_details_lines, exn_bind_inr;
    [|by apply calculate_prize_numbers|done].
  rewrite three_digits_text, exn_bind_inr by done.
  rewrite manage_report_writes. cbn [from_option]. by rewrite app_nil_l.
Qed.

Lemma failure_block_written (w : World) (reason : pystr) :
  manage_report None (Some (MSG_ERROR_HEAD ++ exn_str (Exception reason))) w =
  with_log w (failure_block w reason ++ persisted_log w).
Proof.
  rewrite manage_report_writes, exn_str_Exception. cbn [from_option app].
  unfold failure_block. by destruct MSG_ERROR_HEAD eqn:Hhead.
Qed.

Lemma main_process_raise (w : World) (reason : pystr) :
  main_try w = raise reason ->
  main_process w = inr (with_log w (failure_block w reason ++ persisted_log w)).
Proof.
  intros Htry. unfold main_process. rewrite Htry. unfold raise.
  by rewrite failure_block_written.
Qed.

(** Each record of the specification is the one the program writes. *)
Lemma run_record_written (w : World) (block : pystr) :
  run_record w block ->
  main_process w = inr (with_log w (block ++ persisted_log w)).
Proof.
  intros Hrun.
  repeat match goal with
         | Hs : run_record _ _ |- _ => destruct Hs
         | Hs : LocateReport _ _ _ _ |- _ => destruct Hs
         | Hs : DetermineEvalPeriod _ _ _ _ |- _ => destruct Hs
         | Hs : ReadHistory _ _ |- _ => destruct Hs
         end;
    unfold csv_path in *.
  - apply main_process_raise. unfold main_try.
    by match goal with Hs : truthy _ = _ |- _ => rewrite Hs end.
  - match goal with Hs : valid_records _ = [] |- _ => rename Hs into Hnone end.
    match goal with Hs : truthy _ = Some ?c |- _ =>
      rename Hs into Hread; assert (Hne : c <> []) end.
    { intros ->. by destruct (robust_file_read w _) as [[|]|]. }
    apply main_process_raise. unfold main_try. rewrite Hread.
    by rewrite (get_period_data_from_csv_no_records _ Hne Hnone).
  - match goal with Hs : get_period_data_from_csv _ = _ |- _ => rename Hs into Hparse end.
    match goal with Hs : truthy _ = Some _ |- _ => rename Hs into Hread end.
    destruct (get_period_data_from_csv_draws _ _ _ Hparse) as (Hmap & Hperiods & _).
    apply main_process_raise. unfold main_try. rewrite Hread, Hparse, exn_bind_inr.
    rewrite !bool_decide_eq_false_2 by done. cbn [orb].
    by rewrite bool_decide_eq_true_2 by done.
  - match goal with Hs : get_period_data_from_csv _ = _ |- _ => rename Hs into Hparse end.
    match goal with Hs : truthy (robust_file_read _ _) = Some _ |- _ =>
      rename Hs into Hread end.
    match goal with Hs : truthy (find_matching_report _ _) = _ |- _ =>
      rename Hs into Hfind end.
    destruct (get_period_data_from_csv_draws _ _ _ Hparse) as (Hmap & Hperiods & _).
    apply main_process_raise. unfold main_try. rewrite Hread, Hparse, exn_bind_inr.
    rewrite !bool_decide_eq_false_2 by done. cbn [orb].
    rewrite bool_decide_eq_false_2 by (rewrite length_app; simpl; lia).
    rewrite (proj1 (index_last _ _ _)), exn_bind_inr.
    rewrite (proj2 (index_last _ _ _)), exn_bind_inr.
    by rewrite Hfind.
  - match goal with Hs : get_period_data_from_csv _ = _ |- _ => rename Hs into Hparse end.
    match goal with Hs : truthy (robust_file_read _ (path_join _ _)) = Some _ |- _ =>
      rename Hs into Hread end.
    match goal with Hs : truthy (find_matching_report _ _) = _ |- _ =>
      rename Hs into Hfind end.
    match goal with Hs : truthy (robust_file_read _ report_file) = _ |- _ =>
      rename Hs into Hreport end.
    destruct (get_period_data_from_csv_draws _ _ _ Hparse) as (Hmap & Hperiods & _).
    apply main_process_raise. unfold main_try. rewrite Hread, Hparse, exn_bind_inr.
    rewrite !bool_decide_eq_false_2 by done. cbn [orb].
    rewrite bool_decide_eq_false_2 by (rewrite length_app; simpl; lia).
    rewrite (proj1 (index_last _ _ _)), exn_bind_inr.
    rewrite (proj2 (index_last _ _ _)), exn_bind_inr.
    by rewrite Hfind, Hreport.
  - match goal with Hs : get_period_data_from_csv _ = _ |- _ => rename Hs into Hparse end.
    match goal with Hs : truthy (robust_file_read _ (path_join _ _)) = Some _ |- _ =>
      rename Hs into Hread end.
    match goal with Hs : truthy (find_matching_report _ _) = _ |- _ =>
      rename Hs into Hfind end.
    match goal with Hs : truthy (robust_file_read _ report_file) = _ |- _ =>
      rename Hs into Hreport end.
    match goal with Hs : parse_recommendations_from_report _ = [] |- _ =>
      rename Hs into Htickets end.
    destruct (get_period_data_from_csv_draws _ _ _ Hparse) as (Hmap & Hperiods & _).
    apply main_process_raise. unfold main_try. rewrite Hread, Hparse, exn_bind_inr.
    rewrite !bool_decide_eq_false_2 by done. cbn [orb].
    rewrite bool_decide_eq_false_2 by (rewrite length_app; simpl; lia).
    rewrite (proj1 (index_last _ _ _)), exn_bind_inr.
    rewrite (proj2 (index_last _ _ _)), exn_bind_inr.
    by rewrite Hfind, Hreport, Htickets.
  - match goal with Hs : get_period_data_from_csv _ = _ |- _ => rename Hs into Hparse end.
    match goal with Hs : truthy (robust_file_read _ (path_join _ _)) = Some _ |- _ =>
      rename Hs into Hread end.
    match goal with Hs : truthy (find_matching_report _ _) = _ |- _ =>
      rename Hs into Hfind end.
    match goal with Hs : truthy (robust_file_read _ report_file) = _ |- _ =>
      rename Hs into Hreport end.
    match goal with Hs : parse_recommendations_from_report _ <> [] |- _ =>
      rename Hs into Htickets end.
    match goal with Hs : _ !! _ = Some draw |- _ => rename Hs into Hdraw end.
    destruct (get_period_data_from_csv_draws _ _ _ Hparse) as (Hmap & Hperiods & Hdraws).
    destruct (Hdraws eval_period) as (draw' & Hdraw' & Hticket); [set_solver|].
    assert (draw' = draw) as -> by congruence.
    unfold main_process, main_try. rewrite Hread, Hparse, exn_bind_inr.
    rewrite !bool_decide_eq_false_2 by done. cbn [orb].
    rewrite bool_decide_eq_false_2 by (rewrite length_app; simpl; lia).
    rewrite (proj1 (index_last _ _ _)), exn_bind_inr.
    rewrite (proj2 (index_last _ _ _)), exn_bind_inr.
    rewrite Hfind, Hreport.
    pose proof (parse_recommendations_is_ticket report_content) as Hall.
    destruct (parse_recommendations_from_report report_content) as [|t tickets] eqn:Hparsed;
      [done|].
    rewrite Hdraw. by rewrite main_try_success.
Qed.

(** Every run leaves one of the records of the specification. *)
Lemma run_record_total (w : World) : exists block, run_record w block.
Proof.
  destruct (truthy (robust_file_read w (csv_path w))) as [csv_content|] eqn:Hread.
  2:{ eexists. by apply failed_unreadable_dataset. }
  assert (Hhistory : ReadHistory w csv_content) by done.
  destruct (get_period_data_from_csv_no_exception csv_content) as [[[pm ps]|] Hparse].
  2:{ eexists. eapply failed_no_valid_records; [done|].
      by apply get_period_data_from_csv_None. }
  destruct (decide (length ps < 2)%nat) as [Hfew|Hmany].
  { eexists. by eapply failed_too_few_periods. }
  assert (exists earlier cutoff eval_period, ps = earlier ++ [cutoff; eval_period])
    as (earlier & cutoff & eval_period & ->).
  { apply two_last. lia. }
  assert (Hperiod : DetermineEvalPeriod w pm eval_period cutoff)
    by (by econstructor).
  destruct (truthy (find_matching_report w cutoff)) as [report_file|] eqn:Hfind.
  2:{ eexists. by eapply failed_no_matching_report. }
  assert (Hlocate : LocateReport w pm eval_period report_file)
    by (by econstructor).
  destruct (truthy (robust_file_read w report_file)) as [report_content|] eqn:Hreport.
  2:{ eexists. by eapply failed_unreadable_report. }
  destruct (parse_recommendations_from_report report_content) as [|t tickets] eqn:Hparsed.
  { eexists. by eapply failed_no_tickets. }
  destruct (get_period_data_from_csv_draws _ _ _ Hparse) as (_ & _ & Hdraws).
  destruct (Hdraws eval_period) as (draw & Hdraw & _); [set_solver|].
  eexists. eapply succeeded; [done | done | by rewrite Hparsed | done].
Qed.


End Orchestrator.

(** A whole run: the second ticket holds the digits of the draw 456 in
    another order and wins 167; the record is written into the new log. *)
Example main_process_sample_run :
  main_process RUN_WORLD =
  inr (with_log RUN_WORLD
         (outcome_block
            {| entry_timestamp := SAMPLE_TIME;
               entry_period := P2024119;
               entry_prize_numbers := [52; 53; 54];
               entry_total_recommendations := 3;
               entry_winning_count := 1;
               entry_total_prize := 167;
               entry_winning_details :=
                 [TXT_DRAW ++ [52; 53; 54]; [];
                  TXT_ORDINAL ++ [50] ++ TXT_TICKET ++ [52; 54; 53] ++ TXT_DASH ++
                  KEY_ZUXUAN6 ++ TXT_DASH ++ [49; 54; 55] ++ TXT_YUAN] |})).
Proof. by vm_compute. Qed.


(** * Further properties of the prize engine *)

Lemma calculate_prize_step_state (draw : list Z) (st : PrizeState) (i : Z)
    (ticket : list Z) :
  calculate_prize_step draw st i ticket =
  let new := ticket_details draw i [ticket] in
  {| total_prize := total_prize st + sum_amounts new;
     prize_counts := bump_counts (prize_counts st) new;
     winning_details := winning_details st ++ new |}.
Proof.
  unfold calculate_prize_step, ticket_details, ticket_level, award.
  destruct st as [total counts details].
  destruct (decide (ticket = draw)) as [->|Hne]; cbn.
  - by rewrite Z.add_0_r.
  - destruct (decide (list_to_set ticket = list_to_set draw)); cbn.
    + destruct (decide (size (list_to_set ticket) = 3%nat)); cbn;
        by rewrite Z.add_0_r.
    + by rewrite Z.add_0_r, app_nil_r.
Qed.

Lemma sum_amounts_app (k1 k2 : list WinningDetail) :
  sum_amounts (k1 ++ k2) = sum_amounts k1 + sum_amounts k2.
Proof. induction k1 as [|d k1 IH]; simpl; [done|]. rewrite IH. lia. Qed.

Lemma bump_counts_app (counts : gmap PrizeLevel Z) (k1 k2 : list WinningDetail) :
  bump_counts counts (k1 ++ k2) = bump_counts (bump_counts counts k1) k2.
Proof. unfold bump_counts. by rewrite foldl_app. Qed.

Lemma ticket_details_app (draw : list Z) (l1 l2 : list (list Z)) (i : Z) :
  ticket_details draw i (l1 ++ l2) =
  ticket_details draw i l1 ++ ticket_details draw (i + Z.of_nat (length l1)) l2.
Proof.
  revert i. induction l1 as [|t l1 IH]; intros i.
  - cbn. by rewrite Z.add_0_r.
  - cbn [app ticket_details length]. rewrite IH, <- app_assoc.
    by replace (i + 1 + Z.of_nat (length l1)) with (i + Z.of_nat (S (length l1))) by lia.
Qed.

(** The state the loop ends in. *)
Lemma calculate_prize_loop_state (draw : list Z) (tickets : list (list Z)) :
  forall (i : Z) (st : PrizeState),
  calculate_prize_loop draw i tickets st =
  {| total_prize := total_prize st + sum_amounts (ticket_details draw i tickets);
     prize_counts := bump_counts (prize_counts st) (ticket_details draw i tickets);
     winning_details := winning_details st ++ ticket_details draw i tickets |}.
Proof.
  induction tickets as [|t rest IH]; intros i st.
  - destruct st. cbn. by rewrite Z.add_0_r, app_nil_r.
  - cbn [calculate_prize_loop]. rewrite IH, calculate_prize_step_state.
    cbn [total_prize prize_counts winning_details].
    change (t :: rest) with ([t] ++ rest).
    rewrite (ticket_details_app draw [t] rest i).
    replace (i + Z.of_nat (length [t])) with (i + 1) by (simpl; lia).
    rewrite sum_amounts_app, bump_counts_app, <- !app_assoc.
    f_equal. lia.
Qed.

Lemma calculate_prize_state (draw : list Z) (tickets : list (list Z)) :
  calculate_prize tickets draw =
  {| total_prize := sum_amounts (ticket_details draw 0 tickets);
     prize_counts := bump_counts ∅ (ticket_details draw 0 tickets);
     winning_details := ticket_details draw 0 tickets |}.
Proof. unfold calculate_prize. by rewrite calculate_prize_loop_state. Qed.

Lemma bump_counts_lookup (details : list WinningDetail) (counts : gmap PrizeLevel Z)
    (level : PrizeLevel) :
  default 0 (bump_counts counts details !! level) =
  default 0 (counts !! level) + count_level level details.
Proof.
  revert counts. induction details as [|d details IH]; intros counts.
  - unfold count_level, bump_counts. rewrite filter_nil. cbn [foldl length]. lia.
  - unfold bump_counts in *. cbn [foldl]. rewrite IH. unfold count_level.
    rewrite filter_cons. destruct (decide (prize_level d = level)) as [->|Hne].
    + rewrite lookup_insert_eq. simpl. lia.
    + rewrite lookup_insert_ne by done. lia.
Qed.

(** The total is the sum of the amounts of the winning details, and the
    counter of every level is the number of winning details of that level
    (a level that never won has no counter). *)
Theorem calculate_prize_totals (tickets : list (list Z)) (draw : list Z)
    (level : PrizeLevel) :
  let result := calculate_prize tickets draw in
  total_prize result = sum_amounts (winning_details result) /\
  default 0 (prize_counts result !! level) =
    count_level level (winning_details result) /\
  (prize_counts result !! level = None <->
   count_level level (winning_details result) = 0).
Proof.
  cbv zeta. rewrite calculate_prize_state. cbn [total_prize prize_counts winning_details].
  split; [done|]. pose proof (bump_counts_lookup (ticket_details draw 0 tickets) ∅ level)
    as Hcount.
  rewrite lookup_empty in Hcount. cbn [default] in Hcount. split; [lia|].
  split.
  - intros Hnone. rewrite Hnone in Hcount. cbn in Hcount. lia.
  - intros Hzero. 
    assert (Hkeep : forall details counts,
              count_level level details = 0 -> counts !! level = None ->
              bump_counts counts details !! level = None).
    { clear. induction details as [|d details IH]; intros counts Hz Hc; [done|].
      unfold bump_counts in *. cbn [foldl]. unfold count_level in *.
      rewrite filter_cons in Hz.
      destruct (decide (prize_level d = level)) as [->|Hne]; [simpl in Hz; lia|].
      apply IH; [done|]. by rewrite lookup_insert_ne. }
    by apply Hkeep.
Qed.

Lemma ticket_details_shift (draw : list Z) (tickets : list (list Z)) (i j : Z) :
  ticket_details draw (i + j) tickets = shift_ticket i <$> ticket_details draw j tickets.
Proof.
  revert j. induction tickets as [|t rest IH]; intros j; [done|].
  cbn [ticket_details]. rewrite fmap_app.
  replace (i + j + 1) with (i + (j + 1)) by lia. rewrite IH. f_equal.
  destruct (ticket_level t draw); [|done]. cbn. unfold shift_ticket. cbn.
  do 2 f_equal. lia.
Qed.

(** Evaluating two lists of tickets one after the other: the winning
    details of the second list follow those of the first, with the ticket
    numbers moved past the first list; totals and counters add up. *)
Theorem calculate_prize_app (l1 l2 : list (list Z)) (draw : list Z)
    (level : PrizeLevel) :
  let r1 := calculate_prize l1 draw in
  let r2 := calculate_prize l2 draw in
  let r := calculate_prize (l1 ++ l2) draw in
  winning_details r =
    winning_details r1 ++
    (shift_ticket (Z.of_nat (length l1)) <$> winning_details r2) /\
  total_prize r = total_prize r1 + total_prize r2 /\
  default 0 (prize_counts r !! level) =
    default 0 (prize_counts r1 !! level) + default 0 (prize_counts r2 !! level).
Proof.
  cbv zeta. rewrite !calculate_prize_state.
  cbn [total_prize prize_counts winning_details].
  rewrite ticket_details_app, Z.add_0_l.
  pose proof (ticket_details_shift draw l2 (Z.of_nat (length l1)) 0) as Hshift.
  rewrite Z.add_0_r in Hshift. rewrite Hshift. clear Hshift.
  split; [done|].
  assert (Hsum : forall n details,
            sum_amounts (shift_ticket n <$> details) = sum_amounts details).
  { intros n details. induction details as [|d details IH]; [done|].
    rewrite fmap_cons. unfold sum_amounts in *. cbn [foldr]. rewrite IH. done. }
  assert (Hcount : forall n details,
            count_level level (shift_ticket n <$> details) = count_level level details).
  { intros n details. unfold count_level. f_equal.
    induction details as [|d details IH]; [done|].
    rewrite fmap_cons, !filter_cons. cbn [shift_ticket prize_level].
    destruct (decide (prize_level d = level)); cbn [length]; by rewrite IH. }
  split.
  - by rewrite sum_amounts_app, Hsum.
  - rewrite bump_counts_app, !bump_counts_lookup, Hcount, lookup_empty. cbn. lia.
Qed.

Lemma ticket_details_Forall (draw : list Z) (tickets : list (list Z)) (i : Z) :
  Forall (fun d =>
            i + 1 <= ticket_id d <= i + Z.of_nat (length tickets) /\
            tickets !! Z.to_nat (ticket_id d - i - 1) = Some (numbers d) /\
            ticket_level (numbers d) draw = Some (prize_level d) /\
            amount d = PRIZE_TABLE (prize_level d))
    (ticket_details draw i tickets).
Proof.
  revert i. induction tickets as [|t rest IH]; intros i; [constructor|].
  cbn [ticket_details]. apply Forall_app. split.
  - destruct (ticket_level t draw) as [level|] eqn:Hlevel; [|constructor].
    constructor; [|constructor]. cbn [ticket_id numbers prize_level amount length].
    replace (Z.to_nat (i + 1 - i - 1)) with 0%nat by lia. repeat split; try done; lia.
  - eapply Forall_impl; [apply IH|]. cbn [length].
    intros d (Hid & Hnth & Hlevel & Hamount). repeat split; try done; try lia.
    replace (Z.to_nat (ticket_id d - i - 1)) with (S (Z.to_nat (ticket_id d - (i + 1) - 1)))
      by lia.
    done.
Qed.

Lemma ticket_details_sorted (draw : list Z) (tickets : list (list Z)) (i : Z) :
  StronglySorted Z.lt (ticket_id <$> ticket_details draw i tickets).
Proof.
  revert i. induction tickets as [|t rest IH]; intros i; [constructor|].
  cbn [ticket_details]. rewrite fmap_app.
  assert (Hrest : Forall (fun id => i + 1 < id)
                    (ticket_id <$> ticket_details draw (i + 1) rest)).
  { rewrite Forall_fmap. eapply Forall_impl; [apply ticket_details_Forall|].
    cbn. intros d (Hid & _). lia. }
  destruct (ticket_level t draw); cbn; [|apply IH].
  constructor; [apply IH | done].
Qed.

Lemma ticket_details_length (draw : list Z) (tickets : list (list Z)) (i : Z) :
  (length (ticket_details draw i tickets) <= length tickets)%nat.
Proof.
  revert i. induction tickets as [|t rest IH]; intros i; [done|].
  cbn [ticket_details]. rewrite length_app. specialize (IH (i + 1)).
  destruct (ticket_level t draw); cbn [length]; lia.
Qed.

Lemma sum_amounts_bounds (details : list WinningDetail) :
  Forall (fun d => amount d = PRIZE_TABLE (prize_level d)) details ->
  167 * Z.of_nat (length details) <= sum_amounts details
  <= 1000 * Z.of_nat (length details).
Proof.
  induction 1 as [|d details Hd _ IH]; [done|].
  cbn [sum_amounts foldr length]. fold (sum_amounts details). rewrite Hd.
  destruct (prize_level d); cbn [PRIZE_TABLE]; lia.
Qed.

(** Invariants of the result: the winning details are in the order of the
    tickets, at most one for a ticket; each carries the number and the digits
    of its ticket, and the amount the prize table gives its level; the total
    lies between 167 and 1000 for each winning ticket. *)
Theorem calculate_prize_invariants (tickets : list (list Z)) (draw : list Z) :
  let result := calculate_prize tickets draw in
  StronglySorted Z.lt (ticket_id <$> winning_details result) /\
  (length (winning_details result) <= length tickets)%nat /\
  Forall (fun d =>
            1 <= ticket_id d <= Z.of_nat (length tickets) /\
            tickets !! Z.to_nat (ticket_id d - 1) = Some (numbers d) /\
            amount d = PRIZE_TABLE (prize_level d))
    (winning_details result) /\
  167 * Z.of_nat (length (winning_details result)) <= total_prize result
  <= 1000 * Z.of_nat (length (winning_details result)).
Proof.
  cbv zeta. rewrite calculate_prize_state.
  cbn [total_prize prize_counts winning_details].
  pose proof (ticket_details_Forall draw tickets 0) as Hall.
  split; [apply ticket_details_sorted|]. split; [apply ticket_details_length|].
  split.
  - eapply Forall_impl; [exact Hall|]. cbn. intros d (Hid & Hnth & _ & Hamount).
    replace (ticket_id d - 0 - 1) with (ticket_id d - 1) in Hnth by lia.
    repeat split; try done; lia.
  - apply sum_amounts_bounds. eapply Forall_impl; [exact Hall|]. cbn. tauto.
Qed.

Lemma ticket_level_None (ticket draw : list Z) :
  ticket_level ticket draw = None <-> ~ same_digit_set ticket draw.
Proof.
  unfold ticket_level. rewrite <- list_to_set_eq_same_digits.
  destruct (decide (ticket = draw)) as [->|Hne].
  - split; [done|]. intros Hn. by destruct Hn.
  - destruct (decide ((list_to_set ticket : gset Z) = list_to_set draw)); split; try done.
Qed.

Lemma ticket_details_nil (draw : list Z) (tickets : list (list Z)) (i : Z) :
  ticket_details draw i tickets = [] <->
  Forall (fun t => ticket_level t draw = None) tickets.
Proof.
  revert i. induction tickets as [|t rest IH]; intros i.
  - split; [constructor | done].
  - cbn [ticket_details]. rewrite Forall_cons, <- (IH (i + 1)).
    destruct (ticket_level t draw); cbn; split; try done; try tauto.
    by intros [? _].
Qed.

(** Nothing is won exactly when no ticket has the digits of the draw: then
    the total is 0, there is no counter and no winning detail. *)
Theorem calculate_prize_nothing_won (tickets : list (list Z)) (draw : list Z) :
  Forall (fun t => ~ same_digit_set t draw) tickets <->
  calculate_prize tickets draw =
    {| total_prize := 0; prize_counts := ∅; winning_details := [] |}.
Proof.
  rewrite calculate_prize_state.
  assert (Hnil : Forall (fun t => ~ same_digit_set t draw) tickets <->
                 ticket_details draw 0 tickets = []).
  { rewrite ticket_details_nil. apply Forall_iff. intros t.
    by rewrite ticket_level_None. }
  rewrite Hnil. split.
  - by intros ->.
  - intros Heq. by apply (f_equal winning_details) in Heq.
Qed.

(** The group prizes of one draw are all of one kind, which the draw fixes:
    组选6 when the draw has three different digits, 组选3 otherwise. *)
Theorem calculate_prize_group_level_by_draw (tickets : list (list Z))
    (draw : list Z) :
  Forall (fun d =>
            prize_level d = ZhiXuan \/
            prize_level d =
              if decide (size (list_to_set draw : gset Z) = 3%nat)
              then ZuXuan6 else ZuXuan3)
    (winning_details (calculate_prize tickets draw)).
Proof.
  rewrite calculate_prize_state. cbn [winning_details].
  eapply Forall_impl; [apply (ticket_details_Forall draw tickets 0)|].
  cbn. intros d (_ & _ & Hlevel & _). unfold ticket_level in Hlevel.
  destruct (decide (numbers d = draw)); [left; congruence|].
  destruct (decide ((list_to_set (numbers d) : gset Z) = list_to_set draw))
    as [Heq|]; [|done].
  right. rewrite <- Heq. congruence.
Qed.

(** The comparison of digit sets ignores how often a digit occurs: a ticket
    with the digits a, a, b is paid 组选3 against the draw a, b, b, of which it
    is no rearrangement. *)
Theorem calculate_prize_pays_other_pair (a b : Z) :
  a <> b ->
  ~ Permutation [a; a; b] [a; b; b] /\
  calculate_prize [[a; a; b]] [a; b; b] =
    {| total_prize := 333;
       prize_counts := {[ZuXuan3 := 1]};
       winning_details := [{| ticket_id := 1; numbers := [a; a; b];
                              prize_level := ZuXuan3; amount := 333 |}] |}.
Proof.
  intros Hab. split.
  - intros Hperm. apply Permutation_cons_inv in Hperm.
    assert (Hin : a ∈ [b; b]) by (rewrite <- Hperm; set_solver).
    set_solver.
  - rewrite calculate_prize_state. cbn [ticket_details].
    assert (Hlevel : ticket_level [a; a; b] [a; b; b] = Some ZuXuan3).
    { unfold ticket_level.
      destruct (decide ([a; a; b] = [a; b; b])) as [Heq|_]; [congruence|].
      destruct (decide ((list_to_set [a; a; b] : gset Z) = list_to_set [a; b; b]))
        as [_|Hne]; [|destruct Hne; set_solver].
      assert (Hset : (list_to_set [a; a; b] : gset Z) = list_to_set [a; b])
        by set_solver.
      rewrite Hset. pose proof (size_list_to_set_le [a; b]) as Hle.
      cbn [length] in Hle. destruct (decide _); [lia | done]. }
    rewrite Hlevel. cbn. by rewrite lookup_empty, insert_empty.
Qed.

(** Witness: the ticket 1, 1, 2 against the draw 1, 2, 2. *)
Lemma calculate_prize_pays_other_pair_witness :
  ~ Permutation [1; 1; 2] [1; 2; 2] /\
  calculate_prize [[1; 1; 2]] [1; 2; 2] =
    {| total_prize := 333;
       prize_counts := {[ZuXuan3 := 1]};
       winning_details := [{| ticket_id := 1; numbers := [1; 1; 2];
                              prize_level := ZuXuan3; amount := 333 |}] |}.
Proof. apply (calculate_prize_pays_other_pair 1 2). lia. Defined.

(** * Further properties of [format_winning_details] *)

Lemma three_digits_cases (l : list Z) :
  three_digits l =
    match l with
    | a :: b :: c :: _ => inr (str_int a ++ str_int b ++ str_int c)
    | _ => inl IndexError
    end.
Proof. by destruct l as [|a [|b [|c l]]]. Qed.

Lemma three_digits_take (l : list Z) : three_digits (take 3 l) = three_digits l.
Proof. rewrite !three_digits_cases. by destruct l as [|a [|b [|c l]]]. Qed.

Lemma three_digits_inr (l : list Z) :
  (3 <= length l)%nat -> exists text, three_digits l = inr text.
Proof.
  rewrite three_digits_cases. destruct l as [|a [|b [|c l]]]; cbn; try lia. eauto.
Qed.

Lemma three_digits_inl (l : list Z) :
  (length l < 3)%nat -> three_digits l = inl IndexError.
Proof.
  rewrite three_digits_cases. destruct l as [|a [|b [|c l]]]; cbn; try lia; done.
Qed.

Lemma format_detail_inr (d : WinningDetail) :
  (3 <= length (numbers d))%nat -> exists line, format_detail d = inr line.
Proof.
  intros Hlen. unfold format_detail.
  destruct (three_digits_inr _ Hlen) as [text ->]. rewrite exn_bind_inr. eauto.
Qed.

Lemma format_detail_inl (d : WinningDetail) :
  (length (numbers d) < 3)%nat -> format_detail d = inl IndexError.
Proof. intros Hlen. unfold format_detail. by rewrite three_digits_inl. Qed.

Lemma mapM_format_detail_cases (details : list WinningDetail) :
  match mapM format_detail details with
  | inr lines =>
      Forall (fun d => (3 <= length (numbers d))%nat) details /\
      length lines = length details
  | inl e =>
      e = IndexError /\ Exists (fun d => (length (numbers d) < 3)%nat) details
  end.
Proof.
  induction details as [|d details IH]; [by split|].
  cbn [mapM].
  destruct (decide (3 <= length (numbers d))%nat) as [Hlen|Hlen].
  - destruct (format_detail_inr _ Hlen) as [text ->]. rewrite !exn_bind_inr.
    destruct (mapM format_detail details) as [e|lines]; cbn.
    + destruct IH as [-> Hex]. split; [done|]. by apply Exists_cons_tl.
    + destruct IH as [Hall Hlines]. split; [by constructor|]. cbn. by rewrite Hlines.
  - rewrite format_detail_inl by lia. cbn. split; [done|].
    apply Exists_cons_hd. lia.
Qed.

(** The outcome of [format_winning_details]: without winning details the one
    line that nothing was won, whatever the draw; otherwise an [IndexError]
    when the draw or the digits of a winning detail are fewer than three, and
    else two lines followed by one line for each detail. *)
Theorem format_winning_details_outcome (details : list WinningDetail)
    (prize_numbers : list Z) :
  match format_winning_details details prize_numbers with
  | inr lines =>
      (details = [] /\ lines = [TXT_NO_WIN]) \/
      (details <> [] /\ (3 <= length prize_numbers)%nat /\
       Forall (fun d => (3 <= length (numbers d))%nat) details /\
       length lines = (2 + length details)%nat)
  | inl e =>
      e = IndexError /\ details <> [] /\
      ((length prize_numbers < 3)%nat \/
       Exists (fun d => (length (numbers d) < 3)%nat) details)
  end.
Proof.
  destruct details as [|d details]; [by left|].
  unfold format_winning_details.
  destruct (decide (3 <= length prize_numbers)%nat) as [Hlen|Hlen].
  - destruct (three_digits_inr _ Hlen) as [text ->]. rewrite exn_bind_inr.
    pose proof (mapM_format_detail_cases (d :: details)) as Hcases.
    destruct (mapM format_detail (d :: details)) as [e|lines]; cbn.
    + destruct Hcases as [-> Hex]. split; [done|]. split; [done|]. by right.
    + destruct Hcases as [Hall Hlines]. right. split; [done|]. split; [done|].
      split; [done|]. cbn in Hlines. cbn. by rewrite Hlines.
  - rewrite three_digits_inl by lia. cbn. split; [done|]. split; [done|].
    left. lia.
Qed.

(** Only the first three digits of the draw and of each winning detail are
    read: the digits after them do not change the lines nor the failure. *)
Theorem format_winning_details_first_three (details : list WinningDetail)
    (prize_numbers : list Z) :
  format_winning_details (first_three <$> details) (take 3 prize_numbers) =
  format_winning_details details prize_numbers.
Proof.
  assert (Hmap : mapM format_detail (first_three <$> details) =
                 mapM format_detail details).
  { induction details as [|d details IH]; [done|].
    assert (Hd : format_detail (first_three d) = format_detail d).
    { unfold format_detail, first_three.
      cbn [numbers ticket_id prize_level amount]. by rewrite three_digits_take. }
    rewrite fmap_cons. cbn [mapM]. by rewrite IH, Hd. }
  destruct details as [|d details]; [done|].
  unfold format_winning_details. rewrite Hmap, three_digits_take.
  by rewrite fmap_cons.
Qed.

(** * Further properties of the report writer *)




Lemma manage_reports_now (calls : list (option ReportEntry * option pystr))
    (w : World) :
  now (manage_reports w calls) = now w.
Proof.
  revert w. induction calls as [|call calls IH]; intros w; [done|].
  unfold manage_reports in *. cbn [foldl]. rewrite IH.
  by rewrite manage_report_writes.
Qed.


(** * Further properties of the draw history store *)

Lemma of_digits_bound (ds : list Z) :
  Forall (fun d => 0 <= d <= 9) ds -> 0 <= of_digits ds < 10 ^ Z.of_nat (length ds).
Proof.
  unfold of_digits. intros Hds.
  enough (Hgen : forall acc, 0 <= acc ->
            0 <= foldl (fun acc d => 10 * acc + d) acc ds
            < (acc + 1) * 10 ^ Z.of_nat (length ds)).
  { specialize (Hgen 0 ltac:(lia)). lia. }
  induction Hds as [|d ds Hd _ IH]; intros acc Hacc.
  - cbn. lia.
  - cbn [foldl length]. specialize (IH (10 * acc + d) ltac:(lia)).
    rewrite Nat2Z.inj_succ, Z.pow_succ_r by lia.
    assert (0 < 10 ^ Z.of_nat (length ds)) by (apply Z.pow_pos_nonneg; lia).
    nia.
Qed.

Lemma StronglySorted_mono {A} (R R' : A -> A -> Prop) (l : list A) :
  (forall x y, R x y -> R' x y) -> StronglySorted R l -> StronglySorted R' l.
Proof.
  intros Hmono. induction 1 as [|x l _ IH Hx]; constructor; [done|].
  eapply Forall_impl; [exact Hx|]. intros y. apply Hmono.
Qed.

Lemma insert_sorted_fmap {A B} (f : A -> B) (lt : B -> B -> bool) (x : A)
    (l : list A) :
  insert_sorted lt (f x) (f <$> l) = f <$> insert_sorted (fun a b => lt (f a) (f b)) x l.
Proof.
  induction l as [|y l IH]; [done|].
  rewrite fmap_cons. cbn [insert_sorted]. destruct (lt (f x) (f y)); [done|].
  by rewrite IH, fmap_cons.
Qed.

Lemma stable_sort_fmap {A B} (f : A -> B) (lt : B -> B -> bool) (l : list A) :
  stable_sort lt (f <$> l) = f <$> stable_sort (fun a b => lt (f a) (f b)) l.
Proof.
  unfold stable_sort. change (@nil B) with (f <$> @nil A). generalize (@nil A).
  induction l as [|x l IH]; intros acc; [done|].
  rewrite fmap_cons. cbn [foldl]. by rewrite insert_sorted_fmap, IH.
Qed.

Section DrawResult.
Context `{PyRuntime}.

Lemma mapM_int_key_values (l : list pystr) :
  Forall (fun p => py_int p = Some (period_value p)) l ->
  mapM int_key l = inr ((fun p => (period_value p, p)) <$> l).
Proof.
  induction 1 as [|p l Hp _ IH]; [done|].
  by rewrite mapM_int_key_cons, Hp, IH.
Qed.

Lemma sorted_by_int_stable (l : list pystr) :
  Forall (fun p => py_int p = Some (period_value p)) l ->
  sorted_by_int l =
    inr (stable_sort (fun a b => period_value a <? period_value b) l).
Proof.
  intros Hl. unfold sorted_by_int. rewrite (mapM_int_key_values l Hl).
  rewrite exn_bind_inr.
  rewrite (stable_sort_fmap (fun p => (period_value p, p))
             (fun a b : Z * pystr => a.1 <? b.1) l).
  cbn [fst]. rewrite <- list_fmap_compose.
  unfold mret, exn_ret. f_equal. apply list_fmap_id.
Qed.

Lemma valid_records_period (csv_content period : pystr) (digits : list Z) :
  (period, digits) ∈ valid_records csv_content ->
  match_period_code period = true.
Proof.
  unfold valid_records. destruct csv_content as [|c content];
    [by intros ?%not_elem_of_nil|].
  destruct (csv_rows (c :: content)) as [[|header rows]|];
    try (by intros ?%not_elem_of_nil).
  intros (row & _ & Hrow)%list_elem_of_omap.
  by apply valid_record_period in Hrow as [Hperiod _].
Qed.

Lemma get_period_data_from_csv_records (csv_content : pystr) :
  get_period_data_from_csv csv_content =
    inr match valid_records csv_content with
        | [] => None
        | records => Some (insert_records ∅ records, sorted_periods records)
        end.
Proof.
  destruct (valid_records csv_content) as [|record records] eqn:Hrecords.
  - destruct csv_content as [|c content]; [done|].
    by apply get_period_data_from_csv_no_records.
  - assert (Hvalues : Forall (fun p => py_int p = Some (period_value p))
                        (valid_records csv_content).*1).
    { rewrite Forall_fmap, Forall_forall. intros [period digits] Hin. cbn.
      apply match_period_code_int. by eapply valid_records_period. }
    revert Hrecords Hvalues. unfold get_period_data_from_csv, valid_records.
    destruct csv_content as [|c content]; [done|].
    destruct (csv_rows (c :: content)) as [[|header rows]|]; try done.
    intros Hrecords Hvalues. rewrite process_rows_valid. cbn [fst snd app].
    rewrite Hrecords in *.
    destruct (decide (insert_records ∅ (record :: records) = ∅)) as [Hempty|_].
    + destruct (insert_records_lookup_in (record :: records) ∅ record.1)
        as (ds & Hds & _); [rewrite fmap_cons; by left|].
      by rewrite Hempty, lookup_empty in Hds.
    + by rewrite (sorted_by_int_stable _ Hvalues).
Qed.

(** The result as a function of the valid records of the dataset: the
    failure value when there is none; otherwise the map built from the
    records and their periods sorted by numeric value, periods of equal value
    in file order.  Rows that are no valid record have no effect. *)
Theorem get_period_data_from_csv_result (csv_content : pystr) :
  get_period_data_from_csv csv_content =
    inr match valid_records csv_content with
        | [] => None
        | records => Some (insert_records ∅ records, sorted_periods records)
        end.
Proof. apply get_period_data_from_csv_records. Qed.

Lemma match_period_code_value (period : pystr) :
  match_period_code period = true -> 0 <= period_value period < 10 ^ 7.
Proof.
  unfold match_period_code, period_value.
  pose proof (span_app is_digit period) as Happ.
  pose proof (span_Forall is_digit period) as Hrun.
  destruct (span is_digit period) as [run rest]. cbn [fst snd] in *.
  intros [Hlen Hend]%andb_prop. apply bool_decide_eq_true in Hlen.
  destruct (digits_decimal run Hrun) as [ds Hds].
  assert (Hrange : Forall (fun d => 0 <= d <= 9) ds).
  { apply mapM_Some in Hds. clear -Hds.
    induction Hds as [|c d run ds Hcd _ IH]; constructor; [|done].
    by eapply py_decimal_range. }
  assert (Hlength : length ds = length run).
  { apply mapM_Some in Hds. symmetry. by eapply Forall2_length. }
  apply mapM_omap in Hds.
  assert (Hdigits : omap py_decimal period = ds).
  { unfold at_end in Hend. apply orb_prop in Hend as [Hend|Hend];
      apply bool_decide_eq_true in Hend; subst rest period.
    - by rewrite app_nil_r.
    - rewrite omap_app, Hds. cbn.
      by rewrite (py_space_not_decimal 10 py_isspace_newline), app_nil_r. }
  rewrite Hdigits. pose proof (of_digits_bound ds Hrange) as Hbound.
  assert (10 ^ Z.of_nat (length ds) <= 10 ^ 7)
    by (apply Z.pow_le_mono_r; lia).
  lia.
Qed.

(** A successful parse is well formed: the period list is not empty and has
    one entry for each valid record; the keys of the map are the listed
    periods; every draw is three digits of 0 to 9; every period is a code of 4
    to 7 digits, so its value is below ten million. *)
Theorem get_period_data_from_csv_well_formed (csv_content : pystr)
    (period_map : gmap pystr (list Z)) (periods : list pystr) :
  get_period_data_from_csv csv_content = inr (Some (period_map, periods)) ->
  periods <> [] /\
  length periods = length (valid_records csv_content) /\
  (forall period, period ∈ periods <-> is_Some (period_map !! period)) /\
  (forall period draw, period_map !! period = Some draw ->
     is_ticket draw /\ match_period_code period = true /\
     0 <= period_value period < 10 ^ 7).
Proof.
  intros Hparse.
  pose proof (get_period_data_from_csv_draws _ _ _ Hparse) as (_ & Hne & Hdraws).
  apply get_period_data_from_csv_Some in Hparse as (-> & Hsorted & _).
  apply sorted_by_int_sorted in Hsorted as [Hperm _].
  assert (Hkey : forall period draw,
            insert_records ∅ (valid_records csv_content) !! period = Some draw ->
            (period, draw) ∈ valid_records csv_content).
  { intros period draw Hlookup.
    destruct (decide (period ∈ (valid_records csv_content).*1)) as [Hin|Hnin].
    - destruct (insert_records_lookup_in _ ∅ _ Hin) as (ds & Hds & Hmem).
      congruence.
    - by rewrite insert_records_not_in, lookup_empty in Hlookup. }
  split; [done|]. split; [by rewrite Hperm, length_fmap|]. split.
  - intros period. split.
    + intros Hin. destruct (Hdraws period Hin) as (draw & Hdraw & _). by eexists.
    + intros [draw Hdraw]. rewrite Hperm. apply Hkey in Hdraw.
      apply list_elem_of_fmap. by exists (period, draw).
  - intros period draw Hdraw. apply Hkey in Hdraw.
    pose proof (valid_records_period _ _ _ Hdraw) as Hcode.
    split; [by eapply valid_records_ticket|]. split; [done|].
    by apply match_period_code_value.
Qed.

Lemma sorted_periods_sorted (records : list (pystr * list Z)) :
  StronglySorted (fun a b => period_value a <= period_value b)
    (sorted_periods records).
Proof.
  unfold sorted_periods.
  eapply StronglySorted_mono;
    [|apply (stable_sort_sorted (fun a b : pystr => period_value a <? period_value b))].
  - intros a b Hab. cbv beta in Hab. lia.
  - intros a b Hab. lia.
  - intros a b c Hab Hbc. lia.
Qed.

(** A period whose valid rows are two or more counts as two periods: when it
    is the newest of the dataset, the evaluation period and the cutoff
    period, the last two of the list, are both that period's, although the
    dataset may hold no other period at all. *)
Theorem get_period_data_from_csv_newest_twice (csv_content : pystr)
    (period_map : gmap pystr (list Z)) (periods l1 l2 l3 : list pystr)
    (period : pystr) :
  get_period_data_from_csv csv_content = inr (Some (period_map, periods)) ->
  (valid_records csv_content).*1 = l1 ++ period :: l2 ++ period :: l3 ->
  Forall (fun q => period_value q <= period_value period) periods ->
  exists eval_period data_cutoff_period,
    index periods (length periods - 1) = inr eval_period /\
    index periods (length periods - 2) = inr data_cutoff_period /\
    period_value eval_period = period_value period /\
    period_value data_cutoff_period = period_value period.
Proof.
  intros Hparse Hrows Hnewest.
  rewrite get_period_data_from_csv_records in Hparse.
  destruct (valid_records csv_content) as [|record records] eqn:Hrecords; [done|].
  injection Hparse as _ <-.
  pose proof (sorted_periods_sorted (record :: records)) as Hsorted.
  assert (Hperm : sorted_periods (record :: records) ≡ₚ
                  l1 ++ period :: l2 ++ period :: l3).
  { unfold sorted_periods. rewrite <- Hrows. apply stable_sort_perm. }
  set (periods := sorted_periods (record :: records)) in *.
  assert (Hcount : (2 <= length (filter (fun q => q = period) periods))%nat).
  { rewrite Hperm, filter_app, filter_cons_True, filter_app, filter_cons_True by done.
    rewrite length_app. cbn [length]. rewrite length_app. cbn [length]. lia. }
  destruct (two_last periods) as (earlier & cutoff & eval & Hperiods).
  { pose proof (length_filter (fun q => q = period) periods) as Hle. lia. }
  exists eval, cutoff. rewrite Hperiods in *.
  split; [apply index_last|]. split; [apply index_last|].
  rewrite !Forall_app, !Forall_cons in Hnewest.
  destruct Hnewest as (Hearlier & Hcutoff & Heval & _).
  change (earlier ++ [cutoff; eval]) with (earlier ++ [cutoff] ++ [eval]) in Hsorted.
  rewrite app_assoc in Hsorted.
  apply StronglySorted_app in Hsorted as (Hlast & Hbefore & _).
  assert (Hmax : Forall (fun q => period_value q <= period_value eval)
                   (earlier ++ [cutoff])).
  { apply Forall_forall. intros q Hq. apply (Hlast q eval Hq). by left. }
  assert (Hin : period ∈ earlier ++ [cutoff; eval]).
  { rewrite Hperm. set_solver. }
  assert (Hevalue : period_value eval = period_value period).
  { change (earlier ++ [cutoff; eval]) with (earlier ++ [cutoff] ++ [eval]) in Hin.
    rewrite app_assoc in Hin. apply elem_of_app in Hin as [Hin|Hin].
    - rewrite Forall_forall in Hmax. specialize (Hmax _ Hin). lia.
    - apply list_elem_of_singleton in Hin as ->. done. }
  split; [done|].
  destruct (decide (period_value cutoff = period_value period)) as [|Hlower]; [done|].
  assert (Hnone : filter (fun q => q = period) (earlier ++ [cutoff]) = []).
  { apply filter_none. apply Forall_forall. intros q Hq Heq. subst q.
    apply StronglySorted_app in Hbefore as (Hbelow & _ & _).
    apply elem_of_app in Hq as [Hq|Hq].
    - specialize (Hbelow period cutoff Hq ltac:(by left)). lia.
    - apply list_elem_of_singleton in Hq. congruence. }
  change (earlier ++ [cutoff; eval]) with (earlier ++ [cutoff] ++ [eval]) in Hcount.
  rewrite app_assoc, filter_app, Hnone in Hcount.
  pose proof (length_filter (fun q => q = period) [eval]) as Hle.
  cbn [app length] in *. lia.
Qed.

End DrawResult.

(** Witness: the sample dataset. *)
Lemma get_period_data_from_csv_well_formed_witness :
  SAMPLE_PERIODS <> [] /\
  length SAMPLE_PERIODS = length (valid_records SAMPLE_CSV) /\
  (forall period, period ∈ SAMPLE_PERIODS <-> is_Some (SAMPLE_MAP !! period)) /\
  (forall period draw, SAMPLE_MAP !! period = Some draw ->
     is_ticket draw /\ match_period_code period = true /\
     0 <= period_value period < 10 ^ 7).
Proof.
  refine (get_period_data_from_csv_well_formed SAMPLE_CSV SAMPLE_MAP
            SAMPLE_PERIODS _).
  by vm_compute.
Defined.

(** Witness: the sample dataset, whose newest period 2024002 has two valid
    rows. *)
Lemma get_period_data_from_csv_newest_twice_witness :
  exists eval_period data_cutoff_period,
    index SAMPLE_PERIODS (length SAMPLE_PERIODS - 1) = inr eval_period /\
    index SAMPLE_PERIODS (length SAMPLE_PERIODS - 2) = inr data_cutoff_period /\
    period_value eval_period = period_value P2024002 /\
    period_value data_cutoff_period = period_value P2024002.
Proof.
  apply (get_period_data_from_csv_newest_twice SAMPLE_CSV SAMPLE_MAP SAMPLE_PERIODS
           [P2024001] [P9999] [P10000] P2024002).
  - by vm_compute.
  - by vm_compute.
  - repeat constructor; by vm_compute.
Defined.

(** * Further properties of the report locator *)

Lemma list_lt_total (a b : list Z) :
  list_lt a b = false -> list_lt b a = false -> a = b.
Proof.
  revert b. induction a as [|x a IH]; intros [|y b]; cbn; try done.
  destruct (Z.ltb_spec x y); [done|]. destruct (Z.ltb_spec y x); [done|].
  intros Hab Hba. assert (x = y) as -> by lia. f_equal. by apply IH.
Qed.

Lemma candidate_key_inj (a b : datetime * pystr) :
  candidate_key a = candidate_key b -> a = b.
Proof.
  unfold candidate_key. intros Heq. apply app_inj_1 in Heq as [Hkey Hpath]; [|done].
  apply datetime_key_inj in Hkey. destruct a, b. cbn in *. congruence.
Qed.

Lemma candidate_lt_total (a b : datetime * pystr) :
  candidate_lt a b = false -> candidate_lt b a = false -> a = b.
Proof.
  rewrite !candidate_lt_key. intros Hab Hba. by apply candidate_key_inj, list_lt_total.
Qed.

Lemma sort_reverse_head_Permutation (l l' : list (datetime * pystr)) :
  l ≡ₚ l' ->
  head (sort_reverse candidate_lt l) = head (sort_reverse candidate_lt l').
Proof.
  intros Hperm.
  destruct (head (sort_reverse candidate_lt l)) as [c|] eqn:Hhead;
    destruct (head (sort_reverse candidate_lt l')) as [c'|] eqn:Hhead'; [| | |done].
  - apply sort_reverse_head_max in Hhead as [Hc Hmax];
      [|apply candidate_lt_asym|apply candidate_lt_negtrans].
    apply sort_reverse_head_max in Hhead' as [Hc' Hmax'];
      [|apply candidate_lt_asym|apply candidate_lt_negtrans].
    f_equal. apply candidate_lt_total.
    + apply Hmax. by rewrite Hperm.
    + apply Hmax'. by rewrite <- Hperm.
  - apply sort_reverse_head_None in Hhead' as ->.
    apply Permutation_nil_r in Hperm as ->. done.
  - apply sort_reverse_head_None in Hhead as ->.
    symmetry in Hperm. apply Permutation_nil_r in Hperm as ->. done.
Qed.

Section LocatorFrame.
Context `{PyRuntime}.

Lemma find_matching_report_head (w : World) (target_period : pystr) :
  find_matching_report w target_period =
  snd <$> head (sort_reverse candidate_lt
                  (omap (report_candidate w target_period) (glob_reports w))).
Proof.
  unfold find_matching_report.
  by destruct (omap (report_candidate w target_period) (glob_reports w)).
Qed.

Lemma report_candidate_files (w w' : World) (target_period file_path : pystr) :
  files w !! file_path = files w' !! file_path ->
  report_candidate w target_period file_path =
  report_candidate w' target_period file_path.
Proof. intros Hfile. unfold report_candidate, robust_file_read. by rewrite Hfile. Qed.

Lemma omap_ext_in {A B} (f g : A -> option B) (l : list A) :
  (forall x, x ∈ l -> f x = g x) -> omap f l = omap g l.
Proof.
  induction l as [|x l IH]; intros Hfg; [done|].
  change (omap f (x :: l)) with
    (match f x with Some y => y :: omap f l | None => omap f l end).
  change (omap g (x :: l)) with
    (match g x with Some y => y :: omap g l | None => omap g l end).
  rewrite (Hfg x) by (by left). rewrite IH; [done|].
  intros y Hy. apply Hfg. by right.
Qed.

Lemma find_matching_report_frame (w w' : World) (target_period : pystr) :
  glob_reports w ≡ₚ glob_reports w' ->
  (forall file_path, file_path ∈ glob_reports w ->
     files w !! file_path = files w' !! file_path) ->
  find_matching_report w target_period = find_matching_report w' target_period.
Proof.
  intros Hglob Hfiles. rewrite !find_matching_report_head. f_equal.
  apply sort_reverse_head_Permutation.
  rewrite (omap_ext_in (report_candidate w target_period)
             (report_candidate w' target_period) (glob_reports w)).
  - by rewrite Hglob.
  - intros file_path Hin. by apply report_candidate_files, Hfiles.
Qed.

(** The locator reads nothing but the listed report files, and the order in
    which the directory lists them does not matter: two worlds that list the
    same files, with the same content, give the same report. *)
Theorem find_matching_report_listing_order (w w' : World)
    (target_period : pystr) :
  glob_reports w ≡ₚ glob_reports w' ->
  (forall file_path, file_path ∈ glob_reports w ->
     files w !! file_path = files w' !! file_path) ->
  find_matching_report w target_period = find_matching_report w' target_period.
Proof. apply find_matching_report_frame. Qed.

Lemma eligible_timestamp (w : World) (target_period file_path : pystr)
    (t1 t2 : datetime) :
  eligible w target_period file_path t1 -> eligible w target_period file_path t2 ->
  t1 = t2.
Proof.
  intros H1%eligible_report_candidate H2%eligible_report_candidate. congruence.
Qed.

(** Among eligible reports with the same time stamp, the locator returns the
    one whose path is the greatest in the order of strings. *)
Theorem find_matching_report_tie_break (w : World)
    (target_period file_path file_path' : pystr) (timestamp : datetime) :
  find_matching_report w target_period = Some file_path ->
  eligible w target_period file_path timestamp ->
  eligible w target_period file_path' timestamp ->
  list_lt file_path file_path' = false.
Proof.
  rewrite find_matching_report_head. intros Hfind Hel Hel'.
  destruct (head _) as [c|] eqn:Hhead; [|done]. injection Hfind as Hpath.
  apply sort_reverse_head_max in Hhead as [Hc Hmax];
    [|apply candidate_lt_asym|apply candidate_lt_negtrans].
  apply list_elem_of_omap in Hc as (path0 & Hglob & Hcand).
  destruct (report_candidate_eligible _ _ _ _ Hglob Hcand) as [Hpath0 Hel0].
  rewrite Hpath in Hpath0. subst path0.
  pose proof (eligible_timestamp _ _ _ _ _ Hel0 Hel) as Hstamp.
  assert (Hin : (timestamp, file_path') ∈
                omap (report_candidate w target_period) (glob_reports w)).
  { apply list_elem_of_omap. exists file_path'.
    split; [apply Hel' | by apply eligible_report_candidate]. }
  apply Hmax in Hin. unfold candidate_lt in Hin. cbn [fst snd] in Hin.
  rewrite Hstamp, Hpath in Hin. by rewrite decide_True in Hin.
Qed.

End LocatorFrame.

(** Witness: the sample reports listed in another order, beside a file that
    is not listed. *)
Lemma find_matching_report_listing_order_witness :
  find_matching_report LOCATOR_WORLD TARGET_100 =
  find_matching_report LOCATOR_WORLD_2 TARGET_100.
Proof.
  apply (find_matching_report_listing_order LOCATOR_WORLD LOCATOR_WORLD_2).
  - change ([REPORT_B; REPORT_C; REPORT_A] ≡ₚ [REPORT_A; REPORT_C; REPORT_B]).
    etrans; [apply perm_skip, perm_swap|].
    etrans; [apply perm_swap|]. apply perm_skip, perm_swap.
  - intros file_path Hin. cbn in Hin.
    repeat (apply elem_of_cons in Hin as [->|Hin]; [by vm_compute|]).
    by apply not_elem_of_nil in Hin.
Defined.

(** Witness: two reports with the time stamp 20240102_090000; the path with
    [v2] is the greater one. *)
Lemma find_matching_report_tie_break_witness :
  list_lt REPORT_B2 REPORT_B = false.
Proof.
  apply (find_matching_report_tie_break TIE_WORLD TARGET_100 REPORT_B2 REPORT_B
           STAMP_B).
  - by vm_compute.
  - split; [cbn; set_solver|].
    exists REPORT_TEXT, DATE_STAMP_B. by vm_compute.
  - split; [cbn; set_solver|].
    exists REPORT_TEXT, DATE_STAMP_B. by vm_compute.
Defined.

(** * Further properties of the ticket extractor *)

Lemma expect_app (lit s : pystr) : expect lit (lit ++ s) = Some s.
Proof.
  induction lit as [|c lit IH]; [done|]. cbn. by rewrite decide_True.
Qed.

Lemma span_stop (p : Z -> bool) (run rest : pystr) :
  Forall (fun c => p c = true) run ->
  match rest with c :: _ => p c = false | [] => True end ->
  span p (run ++ rest) = (run, rest).
Proof.
  intros Hrun Hrest. induction Hrun as [|c run Hc _ IH].
  - destruct rest as [|c rest]; [done|]. cbn. by rewrite Hrest.
  - cbn. by rewrite Hc, IH.
Qed.

Lemma finditer_from_skip {A} (m : pystr -> option (A * pystr)) (s : pystr)
    (k : nat) :
  finditer_from m k s = finditer_from m 0 (drop k s).
Proof.
  revert k. induction s as [|c s IH]; intros k; [by destruct k|].
  destruct k as [|k]; [done|]. cbn [finditer_from drop]. apply IH.
Qed.

Lemma finditer_match {A} (m : pystr -> option (A * pystr)) (segment rest : pystr)
    (g : A) :
  segment <> [] -> m (segment ++ rest) = Some (g, rest) ->
  finditer m (segment ++ rest) = g :: finditer m rest.
Proof.
  intros Hne Hm. unfold finditer. destruct segment as [|c segment]; [done|].
  change ((c :: segment) ++ rest) with (c :: (segment ++ rest)) in *.
  cbn [finditer_from]. rewrite Hm. f_equal. rewrite finditer_from_skip. f_equal.
  cbn [length]. rewrite length_app.
  replace (S (length segment + length rest) - length rest - 1)%nat
    with (length segment) by lia.
  by rewrite drop_app_length.
Qed.

Section ExtractorReport.
Context `{PyRuntime}.

Lemma ticket_at_no_sign (c : Z) (s : pystr) :
  [c] <> TICKET_HEAD -> ticket_at (c :: s) = None.
Proof.
  intros Hc. unfold ticket_at.
  destruct (expect TICKET_HEAD (c :: s)) as [r0|] eqn:Hexpect; [|done].
  apply expect_Some in Hexpect. destruct Hc.
  unfold TICKET_HEAD in *. cbn in Hexpect. by injection Hexpect as -> _.
Qed.

Lemma finditer_no_sign (text rest : pystr) :
  no_ticket_sign text ->
  finditer ticket_at (text ++ rest) = finditer ticket_at rest.
Proof.
  unfold finditer. induction 1 as [|c text Hc _ IH]; [done|].
  change ((c :: text) ++ rest) with (c :: (text ++ rest)).
  cbn [finditer_from]. by rewrite ticket_at_no_sign.
Qed.

Lemma is_digit_not_space (c : Z) : is_digit c = true -> py_isspace c = false.
Proof.
  unfold is_digit. intros Hc. destruct (py_isspace c) eqn:Hspace; [|done].
  by rewrite (py_space_not_decimal c Hspace) in Hc.
Qed.

Lemma literal_not_space (c : Z) :
  c ∈ [58; 91; 93; 25130; 26399] -> py_isspace c = false.
Proof. intros Hc. by apply py_literal_chars. Qed.

Lemma literal_not_digit (c : Z) :
  c ∈ [58; 91; 93; 25130; 26399] -> is_digit c = false.
Proof.
  intros Hc. unfold is_digit. by rewrite (proj2 (py_literal_chars c Hc)).
Qed.

(** [ticket_at] accepts every ticket segment, and reads its bracket. *)
Lemma ticket_segment_at (segment group rest : pystr) :
  ticket_segment segment group ->
  ticket_at (segment ++ rest) = Some (group, rest).
Proof.
  intros (space1 & index & space2 & -> & Hspace1 & Hindex & Hdigits & Hspace2 &
          Hgroup & Hclass).
  unfold ticket_at. rewrite <- !app_assoc, expect_app. cbn [mbind option_bind].
  rewrite (span_stop py_isspace space1).
  2: done.
  2:{ destruct index as [|c index]; [done|]. cbn.
      apply is_digit_not_space. by inversion Hdigits. }
  cbn [snd]. rewrite (span_stop is_digit index); [|done|].
  2:{ cbn. apply literal_not_digit. set_solver. }
  rewrite decide_False by done.
  rewrite (expect_app [58]). cbn [mbind option_bind].
  rewrite (span_stop py_isspace space2); [|done|].
  2:{ cbn. apply literal_not_space. set_solver. }
  cbn [snd]. rewrite (expect_app [91]). cbn [mbind option_bind].
  rewrite (span_stop in_bracket_class group); [|done|].
  2:{ cbn. unfold in_bracket_class.
      rewrite (literal_not_space 93) by set_solver. done. }
  rewrite decide_False by done.
  by rewrite (expect_app [93]).
Qed.

Lemma ticket_segment_nonempty (segment group : pystr) :
  ticket_segment segment group -> segment <> [].
Proof. by intros (space1 & index & space2 & -> & _). Qed.

Lemma finditer_ticket_report (content : pystr) (groups : list pystr) :
  ticket_report content groups -> finditer ticket_at content = groups.
Proof.
  induction 1 as [text Htext | text segment group rest groups Htext Hsegment _ IH].
  - rewrite <- (app_nil_r text), finditer_no_sign by done. done.
  - rewrite finditer_no_sign by done.
    rewrite (finditer_match ticket_at segment rest group).
    + by rewrite IH.
    + by eapply ticket_segment_nonempty.
    + by apply ticket_segment_at.
Qed.

(** No ticket of a well-formed report is missed: when the report is made of
    ticket segments, with text free of the ticket sign around them, the
    brackets read are those of the segments, in order, and the tickets are
    the tickets of these brackets. *)
Theorem parse_recommendations_from_report_complete (content : pystr)
    (groups : list pystr) :
  ticket_report content groups ->
  finditer ticket_at content = groups /\
  parse_recommendations_from_report content = omap bracket_ticket groups.
Proof.
  intros Hreport. apply finditer_ticket_report in Hreport.
  by rewrite parse_recommendations_omap, Hreport.
Qed.

End ExtractorReport.

(** Witness: the sample report of the locator, a header line and one
    ticket. *)
Lemma parse_recommendations_from_report_complete_witness :
  finditer ticket_at REPORT_TEXT = [REPORT_GROUP] /\
  parse_recommendations_from_report REPORT_TEXT =
    omap bracket_ticket [REPORT_GROUP].
Proof.
  apply (parse_recommendations_from_report_complete REPORT_TEXT [REPORT_GROUP]).
  change REPORT_TEXT with (REPORT_HEADER ++ REPORT_SEGMENT ++ [10]).
  apply report_ticket.
  - unfold no_ticket_sign. apply Forall_forall. intros c Hc.
    repeat (apply elem_of_cons in Hc as [->|Hc]; [done|]).
    by apply not_elem_of_nil in Hc.
  - exists [32], [49], [32]. split; [reflexivity|].
    split; [by repeat constructor|]. split; [done|].
    split; [by repeat constructor|]. split; [by repeat constructor|].
    split; [done|]. by repeat constructor.
  - apply report_tail. by repeat constructor.
Defined.

(** * Report names and cutoff markers *)

Lemma exactly_app (n : nat) (p : Z -> bool) (run rest : pystr) :
  length run = n -> Forall (fun c => p c = true) run ->
  exactly n p (run ++ rest) = Some (run, rest).
Proof.
  intros <- Hrun. induction Hrun as [|c run Hc _ IH]; [done|].
  cbn. by rewrite Hc, IH.
Qed.

Lemma exactly_Some (n : nat) (p : Z -> bool) (s run rest : pystr) :
  exactly n p s = Some (run, rest) -> s = run ++ rest /\ length run = n.
Proof.
  revert s run. induction n as [|n IH]; intros s run; cbn.
  - by intros [= <- <-].
  - destruct s as [|c s]; [done|]. destruct (p c); [|done].
    destruct (exactly n p s) as [[run' rest']|] eqn:Hexact; [|done].
    cbn. intros [= <- <-]. destruct (IH _ _ Hexact) as [-> <-]. done.
Qed.

Lemma search_skip {A} (m : pystr -> option A) (text rest : pystr) :
  (forall before after, text = before ++ after -> after <> [] ->
     m (after ++ rest) = None) ->
  search m (text ++ rest) = search m rest.
Proof.
  induction text as [|c text IH]; intros Hnone; [done|].
  change ((c :: text) ++ rest) with (c :: (text ++ rest)).
  assert (Hhere : m (c :: text ++ rest) = None)
    by (by apply (Hnone [] (c :: text))).
  cbn [search]. rewrite Hhere. apply IH.
  intros before after -> Hafter. by apply (Hnone (c :: before)).
Qed.

Lemma search_here {A} (m : pystr -> option A) (s : pystr) (x : A) :
  m s = Some x -> search m s = Some x.
Proof. intros Hm. destruct s; cbn; by rewrite Hm. Qed.

Section Shapes.
Context `{PyRuntime}.

Lemma cutoff_at_marker (space1 space2 digits space3 rest : pystr) :
  Forall (fun c => py_isspace c = true) space1 ->
  Forall (fun c => py_isspace c = true) space2 ->
  digits <> [] -> Forall (fun c => is_digit c = true) digits ->
  Forall (fun c => py_isspace c = true) space3 ->
  cutoff_at (cutoff_marker space1 space2 digits space3 ++ rest) = Some digits.
Proof.
  intros Hspace1 Hspace2 Hne Hdigits Hspace3.
  unfold cutoff_at, cutoff_marker. rewrite <- !app_assoc, expect_app.
  cbn [mbind option_bind].
  rewrite (span_stop py_isspace space1); [|done|].
  2:{ cbn. apply literal_not_space. set_solver. }
  cbn [snd]. rewrite expect_app. cbn [mbind option_bind].
  rewrite (span_stop py_isspace space2); [|done|].
  2:{ destruct digits as [|c digits]; [done|]. cbn.
      apply is_digit_not_space. by inversion Hdigits. }
  cbn [snd]. rewrite (span_stop is_digit digits); [|done|].
  2:{ destruct space3 as [|c space3]; cbn.
      - apply literal_not_digit. set_solver.
      - unfold is_digit. inversion Hspace3 as [|? ? Hc _]; subst.
        by rewrite (py_space_not_decimal c Hc). }
  rewrite decide_False by done.
  rewrite (span_stop py_isspace space3); [|done|].
  2:{ cbn. apply literal_not_space. set_solver. }
  cbn [snd]. by rewrite expect_app.
Qed.

Lemma cutoff_at_no_head (c : Z) (s : pystr) :
  [c] <> take 1 MARKER_HEAD -> cutoff_at (c :: s) = None.
Proof.
  intros Hc. unfold cutoff_at.
  destruct (expect MARKER_HEAD (c :: s)) as [r0|] eqn:Hexpect; [|done].
  apply expect_Some in Hexpect. destruct Hc.
  unfold MARKER_HEAD in *. cbn in Hexpect. by injection Hexpect as -> _.
Qed.

(** The first cutoff marker of a report decides: after text that does not
    hold the first character of the marker, the period of the marker is the
    one the locator compares with the target period, whatever follows. *)
Theorem search_cutoff_at_first_marker
    (text space1 space2 digits space3 rest : pystr) :
  Forall (fun c => [c] <> take 1 MARKER_HEAD) text ->
  Forall (fun c => py_isspace c = true) space1 ->
  Forall (fun c => py_isspace c = true) space2 ->
  digits <> [] -> Forall (fun c => is_digit c = true) digits ->
  Forall (fun c => py_isspace c = true) space3 ->
  search cutoff_at (text ++ cutoff_marker space1 space2 digits space3 ++ rest)
  = Some digits.
Proof.
  intros Htext Hspace1 Hspace2 Hne Hdigits Hspace3.
  rewrite search_skip.
  - by apply search_here, cutoff_at_marker.
  - intros before [|c after] -> Hafter; [done|].
    apply Forall_app in Htext as [_ Htext]. apply Forall_cons in Htext as [Hc _].
    by apply cutoff_at_no_head.
Qed.

Lemma timestamp_at_length (s stamp : pystr) :
  timestamp_at s = Some stamp ->
  exists body rest, s = body ++ rest /\ length body = 20%nat /\ at_end rest = true.
Proof.
  unfold timestamp_at. intros Hat.
  destruct (expect [95] s) as [r0|] eqn:H0; [|done]. cbn [mbind option_bind] in Hat.
  destruct (exactly 8 is_digit r0) as [[date r1]|] eqn:H1; [|done].
  cbn [mbind option_bind] in Hat.
  destruct (expect [95] r1) as [r2|] eqn:H2; [|done]. cbn [mbind option_bind] in Hat.
  destruct (exactly 6 is_digit r2) as [[time r3]|] eqn:H3; [|done].
  cbn [mbind option_bind] in Hat.
  destruct (expect TXT_SUFFIX r3) as [r4|] eqn:H4; [|done].
  cbn [mbind option_bind] in Hat.
  destruct (at_end r4) eqn:Hend; [|done].
  apply expect_Some in H0, H2, H4.
  apply exactly_Some in H1 as [H1 Hdate], H3 as [H3 Htime]. subst.
  exists ([95] ++ date ++ [95] ++ time ++ TXT_SUFFIX), r4.
  split; [by rewrite <- !app_assoc|]. split; [|done].
  rewrite !length_app, Hdate, Htime. done.
Qed.

Lemma timestamp_at_stamp (date time : pystr) :
  length date = 8%nat -> Forall (fun c => is_digit c = true) date ->
  length time = 6%nat -> Forall (fun c => is_digit c = true) time ->
  timestamp_at ([95] ++ date ++ [95] ++ time ++ TXT_SUFFIX) =
    Some (date ++ [95] ++ time).
Proof.
  intros Hdate Hdigits Htime Htdigits. unfold timestamp_at.
  rewrite (expect_app [95]). cbn [mbind option_bind].
  rewrite exactly_app by done. cbn [mbind option_bind].
  rewrite (expect_app [95]). cbn [mbind option_bind].
  rewrite exactly_app by done. cbn [mbind option_bind].
  rewrite <- (app_nil_r TXT_SUFFIX), expect_app. done.
Qed.

(** A file name that ends in [_], eight digits, [_], six digits and [.txt]
    gives the locator the text of its time stamp, whatever its stem. *)
Theorem search_timestamp_at_name (stem date time : pystr) :
  length date = 8%nat -> Forall (fun c => is_digit c = true) date ->
  length time = 6%nat -> Forall (fun c => is_digit c = true) time ->
  search timestamp_at (stamped_name stem date time) = Some (date ++ [95] ++ time).
Proof.
  intros Hdate Hdigits Htime Htdigits. unfold stamped_name.
  set (tail := [95] ++ date ++ [95] ++ time ++ TXT_SUFFIX).
  assert (Htail : length tail = 20%nat).
  { unfold tail. rewrite !length_app, Hdate, Htime. done. }
  assert (Hlast : forall before, last (before ++ tail) = Some 116).
  { intros before. unfold tail.
    change TXT_SUFFIX with ([46; 116; 120] ++ [116]).
    rewrite !app_assoc. apply last_snoc. }
  rewrite search_skip.
  - by apply search_here, timestamp_at_stamp.
  - intros before after -> Hafter.
    destruct (timestamp_at (after ++ tail)) as [stamp|] eqn:Hat; [|done].
    apply timestamp_at_length in Hat as (body & rest & Heq & Hbody & Hend).
    assert (Hrest : length rest = length after).
    { apply (f_equal length) in Heq. rewrite !length_app in Heq. lia. }
    unfold at_end in Hend. apply orb_prop in Hend as [Hend|Hend];
      apply bool_decide_eq_true in Hend; subst rest.
    + destruct after; [done|]. cbn in Hrest. lia.
    + pose proof (Hlast after) as Hl. rewrite Heq, last_snoc in Hl. done.
Qed.

End Shapes.

(** Witness: the text of the sample reports, whose header line holds the
    marker of period 100. *)
Lemma search_cutoff_at_first_marker_witness :
  search cutoff_at ([] ++ cutoff_marker [32] [32] TARGET_100 [32] ++ REPORT_TAIL)
  = Some TARGET_100.
Proof.
  apply (search_cutoff_at_first_marker [] [32] [32] TARGET_100 [32] REPORT_TAIL);
    by repeat constructor.
Defined.

(** Witness: the name of the sample report dated 20240102_090000. *)
Lemma search_timestamp_at_name_witness :
  search timestamp_at (stamped_name REPORT_STEM DATE_B TIME_B) =
    Some (DATE_B ++ [95] ++ TIME_B).
Proof.
  apply (search_timestamp_at_name REPORT_STEM DATE_B TIME_B);
    by repeat constructor.
Defined.

(** * Further properties of the orchestrator *)

Lemma csv_path_report_path (w : World) : csv_path w <> report_path w.
Proof.
  unfold csv_path, report_path, path_join.
  destruct (last (script_dir w)) as [c|]; [|done].
  destruct (decide (c = 47)); intros Heq; by repeat apply app_inv_head in Heq.
Qed.

Lemma outcome_block_nonempty (e : ReportEntry) : outcome_block e <> [].
Proof.
  intros Heq. apply (f_equal length) in Heq. unfold outcome_block, line in Heq.
  rewrite !length_app in Heq. cbn [length] in Heq. lia.
Qed.

Lemma error_block_nonempty (time message : pystr) : error_block time message <> [].
Proof.
  intros Heq. apply (f_equal length) in Heq. unfold error_block, line in Heq.
  rewrite !length_app in Heq. cbn [length] in Heq. lia.
Qed.

Section OrchestratorFrame.
Context `{PyRuntime}.

Lemma run_record_nonempty (w : World) (block : pystr) :
  run_record w block -> block <> [].
Proof.
  destruct 1; first [apply error_block_nonempty | apply outcome_block_nonempty].
Qed.

Lemma find_matching_report_listed (w : World) (target_period file_path : pystr) :
  find_matching_report w target_period = Some file_path ->
  file_path ∈ glob_reports w.
Proof.
  rewrite find_matching_report_head.
  destruct (head _) as [c|] eqn:Hhead; [|done]. intros [= <-].
  apply sort_reverse_head_max in Hhead as [Hc _];
    [|apply candidate_lt_asym|apply candidate_lt_negtrans].
  apply list_elem_of_omap in Hc as (path & Hglob & Hcand).
  by destruct (report_candidate_eligible _ _ _ _ Hglob Hcand) as [-> _].
Qed.

Lemma truthy_Some (o : option pystr) (s : pystr) : truthy o = Some s -> o = Some s.
Proof. by destruct o as [[|c o]|]. Qed.

Section SameInputs.
Variables w w' : World.
Hypothesis Hsame : same_inputs w w'.

Lemma same_inputs_csv :
  robust_file_read w' (csv_path w') = robust_file_read w (csv_path w).
Proof.
  destruct Hsame as (Hdir & _ & _ & Hcsv & _).
  unfold robust_file_read, csv_path in *. by rewrite <- Hdir, Hcsv.
Qed.

Lemma same_inputs_find (target_period : pystr) :
  find_matching_report w' target_period = find_matching_report w target_period.
Proof.
  destruct Hsame as (_ & _ & Hglob & _ & Hfiles).
  symmetry. by apply find_matching_report_frame.
Qed.

Lemma same_inputs_report (file_path : pystr) :
  file_path ∈ glob_reports w ->
  robust_file_read w' file_path = robust_file_read w file_path.
Proof.
  destruct Hsame as (_ & _ & _ & _ & Hfiles). intros Hin.
  unfold robust_file_read. by rewrite Hfiles.
Qed.

Lemma same_inputs_failure_block (reason : pystr) :
  failure_block w reason = failure_block w' reason.
Proof. destruct Hsame as (_ & Hnow & _). unfold failure_block. by rewrite Hnow. Qed.

Lemma same_inputs_outcome_entry (eval_period : pystr) (draw : list Z)
    (tickets : list (list Z)) :
  outcome_entry w eval_period draw tickets = outcome_entry w' eval_period draw tickets.
Proof. destruct Hsame as (_ & Hnow & _). unfold outcome_entry. by rewrite Hnow. Qed.

Lemma same_inputs_ReadHistory (csv_content : pystr) :
  ReadHistory w csv_content -> ReadHistory w' csv_content.
Proof. intros [Hread]. constructor. by rewrite same_inputs_csv. Qed.

Lemma same_inputs_DetermineEvalPeriod (period_data : gmap pystr (list Z))
    (eval_period data_cutoff_period : pystr) :
  DetermineEvalPeriod w period_data eval_period data_cutoff_period ->
  DetermineEvalPeriod w' period_data eval_period data_cutoff_period.
Proof.
  intros [csv_content earlier Hread Hparse].
  econstructor; [by apply same_inputs_ReadHistory | done].
Qed.

Lemma same_inputs_LocateReport (period_data : gmap pystr (list Z))
    (eval_period report_file : pystr) :
  LocateReport w period_data eval_period report_file ->
  LocateReport w' period_data eval_period report_file /\
  report_file ∈ glob_reports w.
Proof.
  intros [data_cutoff_period Hperiod Hfind]. split.
  - econstructor; [by apply same_inputs_DetermineEvalPeriod|].
    by rewrite same_inputs_find.
  - apply truthy_Some in Hfind. by eapply find_matching_report_listed.
Qed.

Lemma run_record_same_inputs (block : pystr) :
  run_record w block -> run_record w' block.
Proof.
  destruct 1 as [Hread | csv_content Hread Hnone
                | csv_content period_data periods Hread Hparse Hfew
                | period_data eval_period data_cutoff_period Hperiod Hfind
                | period_data eval_period report_file Hlocate Hreport
                | period_data eval_period report_file report_content Hlocate
                    Hreport Htickets
                | period_data eval_period report_file report_content draw Hlocate
                    Hreport Htickets Hdraw];
    rewrite ?same_inputs_failure_block, ?same_inputs_outcome_entry.
  - apply failed_unreadable_dataset. by rewrite same_inputs_csv.
  - eapply failed_no_valid_records; [by apply same_inputs_ReadHistory | done].
  - eapply failed_too_few_periods; [by apply same_inputs_ReadHistory | done | done].
  - eapply failed_no_matching_report; [by apply same_inputs_DetermineEvalPeriod|].
    by rewrite same_inputs_find.
  - apply same_inputs_LocateReport in Hlocate as [Hlocate Hlisted].
    eapply failed_unreadable_report; [done|]. by rewrite same_inputs_report.
  - apply same_inputs_LocateReport in Hlocate as [Hlocate Hlisted].
    eapply failed_no_tickets; [done | by rewrite same_inputs_report | done].
  - apply same_inputs_LocateReport in Hlocate as [Hlocate Hlisted].
    eapply succeeded; [done | by rewrite same_inputs_report | done | done].
Qed.

End SameInputs.

Lemma main_process_same_block (w w' : World) :
  same_inputs w w' ->
  exists block,
    block <> [] /\
    main_process w = inr (with_log w (block ++ persisted_log w)) /\
    main_process w' = inr (with_log w' (block ++ persisted_log w')).
Proof.
  intros Hsame. destruct (run_record_total w) as [block Hrun].
  exists block. split; [by eapply run_record_nonempty|]. split.
  - by apply run_record_written.
  - by apply run_record_written, (run_record_same_inputs w w').
Qed.

Lemma same_inputs_with_log (w : World) (content : pystr) :
  report_path w ∉ glob_reports w -> same_inputs w (with_log w content).
Proof.
  intros Hnot. unfold same_inputs, with_log, write_file. cbn.
  split; [done|]. split; [done|]. split; [done|]. split.
  - rewrite lookup_insert_ne; [done|]. intros Heq. by apply (csv_path_report_path w).
  - intros file_path Hin. rewrite lookup_insert_ne; [done|].
    intros Heq. apply Hnot. by rewrite Heq.
Qed.

(** A run reads nothing but the dataset, the listed reports and the clock:
    in two worlds that agree on them, whatever their logs and other files
    hold, the run puts the same block, which is not empty, in front of the
    log. *)
Theorem main_process_same_inputs (w w' : World) :
  same_inputs w w' ->
  exists block,
    block <> [] /\
    main_process w = inr (with_log w (block ++ persisted_log w)) /\
    main_process w' = inr (with_log w' (block ++ persisted_log w')).
Proof. apply main_process_same_block. Qed.

(** A run does not look at the records of the log: run again in the world
    it left, at the same reading of the clock, it writes its record a second
    time.  The main report file is not one of the listed reports. *)
Theorem main_process_rerun (w : World) :
  report_path w ∉ glob_reports w ->
  exists block w1 w2,
    block <> [] /\
    main_process w = inr w1 /\ main_process w1 = inr w2 /\
    persisted_log w1 = block ++ persisted_log w /\
    persisted_log w2 = block ++ block ++ persisted_log w.
Proof.
  intros Hnot.
  destruct (main_process_same_block w (with_log w (persisted_log w)))
    as (block & Hne & Hrun & _); [by apply same_inputs_with_log|].
  destruct (main_process_same_block w (with_log w (block ++ persisted_log w)))
    as (block' & _ & Hrun' & Hagain); [by apply same_inputs_with_log|].
  assert (block' = block) as ->.
  { rewrite Hrun in Hrun'.
    assert (Heq : with_log w (block ++ persisted_log w) =
                  with_log w (block' ++ persisted_log w)) by congruence.
    apply (f_equal persisted_log) in Heq. rewrite !persisted_log_with_log in Heq.
    by apply app_inv_tail in Heq. }
  eexists block, _, _. split; [done|]. split; [exact Hrun|].
  split; [exact Hagain|]. by rewrite !persisted_log_with_log.
Qed.

End OrchestratorFrame.

(** Witness: the world of the sample run, and the same world with a log
    that holds earlier records. *)
Lemma main_process_same_inputs_witness :
  exists block,
    block <> [] /\
    main_process RUN_WORLD =
      inr (with_log RUN_WORLD (block ++ persisted_log RUN_WORLD)) /\
    main_process (with_log RUN_WORLD OLD_LOG) =
      inr (with_log (with_log RUN_WORLD OLD_LOG)
             (block ++ persisted_log (with_log RUN_WORLD OLD_LOG))).
Proof.
  apply (main_process_same_inputs RUN_WORLD (with_log RUN_WORLD OLD_LOG)).
  split; [done|]. split; [done|]. split; [done|]. split; [by vm_compute|].
  intros file_path Hin. cbn in Hin.
  apply list_elem_of_singleton in Hin as ->. by vm_compute.
Defined.

(** Witness: the world of the sample run, whose only listed report is not
    the main report file. *)
Lemma main_process_rerun_witness :
  exists block w1 w2,
    block <> [] /\
    main_process RUN_WORLD = inr w1 /\ main_process w1 = inr w2 /\
    persisted_log w1 = block ++ persisted_log RUN_WORLD /\
    persisted_log w2 = block ++ block ++ persisted_log RUN_WORLD.
Proof.
  apply (main_process_rerun RUN_WORLD).
  cbn. intros Hin. apply list_elem_of_singleton in Hin. by vm_compute in Hin.
Defined.
